(** * NotebookVariableDataSource: lazy, paginated, cancellable variable tree

    A shallow embedding of
    [src/vs/workbench/contrib/notebook/browser/contrib/notebookVariables/notebookVariablesDataSource.ts]
    and the properties its specification states about it.

    Conventions of the embedding.
    - A JavaScript [number] that the code uses as a count, an offset or a
      handle is a [Z]; the comparisons and additions of the source are the
      ones of [Z].  Template literals [`${n}`] of such a number are its
      decimal representation ([pretty]).
    - An [async] method is a computation [M A] over a [World]: the mutable
      field [this.cancellationTokenSource], the token sources allocated so
      far, a log of what was asked of the provider, and the calls of
      [cancel()] the host will make while the method is suspended.  Every
      [await] of the source is a suspension point of the model.
    - The only loop of the source whose termination depends on the data is
      the range-splitting loop; it takes fuel, and running out of fuel is the
      outcome [Diverged]. *)

From Stdlib Require Import ZArith Lia.
From stdpp Require Import base tactics option list list_numbers strings pretty.

Local Open Scope Z_scope.

(** ** Data model *)

(** [NotebookTextModel]: only its [uri] is read by the data source. *)
Record NotebookTextModel := { uri : string }.

(** Modelled from the spec: the interface [VariablesResult] is declared in
    [notebookKernelService] (not part of the sources at hand).  The spec gives
    the fields of a provider result as
    [{handle, name, value, type?, indexedChildrenCount, hasNamedChildren}];
    the handle is the field the code reads as [variable.id]. *)
Module VariablesResult.
Record t := mk {
  id : Z;
  name : string;
  value : string;
  type : option string;
  hasNamedChildren : bool;
  indexedChildrenCount : Z
}.
End VariablesResult.

(** [interface INotebookScope { kind: 'root'; notebook }]. *)
Module INotebookScope.
Record t := mk { notebook : NotebookTextModel }.
End INotebookScope.

(** [interface INotebookVariableElement], the optional fields as options. *)
Module INotebookVariableElement.
Record t := mk {
  id : string;
  extHostId : Z;
  name : string;
  value : string;
  type : option string;
  indexedChildrenCount : Z;
  indexStart : option Z;
  hasNamedChildren : bool;
  notebook : NotebookTextModel
}.
End INotebookVariableElement.

Module VR := VariablesResult.
Module Var := INotebookVariableElement.

(** [INotebookScope | INotebookVariableElement], discriminated by [kind]. *)
Inductive Element :=
| kind_root (scope : INotebookScope.t)
| kind_variable (element : Var.t).

(** [element.notebook], a field of both variants. *)
Definition Element_notebook (element : Element) : NotebookTextModel :=
  match element with
  | kind_root scope => INotebookScope.notebook scope
  | kind_variable element => Var.notebook element
  end.

(** ** Cancellation *)

(** A token is named by the index of the source that owns it. *)
Abbreviation CancellationToken := nat (only parsing).

(** Modelled from the spec: the class [CancellationTokenSource] lives in
    [vs/base/common/cancellation].  The spec gives a handle the states
    live and revoked, with the one transition live to revoked; [dispose]
    releases the source and never makes a revoked handle live again. *)
Record CancellationTokenSource := {
  isCancellationRequested : bool;
  isDisposed : bool
}.

Definition liveSource : CancellationTokenSource :=
  {| isCancellationRequested := false; isDisposed := false |}.

(** ** The provider *)

(** ['named' | 'indexed']. *)
Inductive VariablesRequestKind := named | indexed.

(** Modelled from the spec: the provider returns "a lazily-produced, finite,
    non-restartable sequence, cooperatively cancellable" ([AsyncIterableObject]
    of [vs/base/common/async]).  [items] are the elements it yields, in order;
    [throws] says whether it fails instead of ending once they are consumed;
    [watches] is the token the provider checks before answering a pull, if it
    honours cancellation at all: a pull under a revoked watched token is
    abandoned. *)
Record AsyncIterableObject (A : Type) := {
  items : list A;
  throws : bool;
  watches : option CancellationToken
}.
Arguments items {A} _.
Arguments throws {A} _.
Arguments watches {A} _.

(** [AsyncIterableObject.map]. *)
Definition map_async {A B} (f : A → B) (s : AsyncIterableObject A) : AsyncIterableObject B :=
  {| items := f <$> items s; throws := throws s; watches := watches s |}.

(** Modelled from the spec: the interface [INotebookKernel] is declared in
    [notebookKernelService]; the data source reads its flag
    [hasVariableProvider] and calls
    [provideVariables(notebookUri, parentId, kind, start, token)], where
    [parentId] is [undefined] for the notebook's root. *)
Record INotebookKernel := {
  hasVariableProvider : bool;
  provideVariables :
    string → option Z → VariablesRequestKind → Z → CancellationToken →
    AsyncIterableObject VR.t
}.

(** Modelled from the spec: the interface [INotebookKernelService] is
    declared in [notebookKernelService]; the data source reads
    [getMatchingKernel(notebook).selected], which may be [undefined]. *)
Record INotebookKernelService := {
  selected : NotebookTextModel → option INotebookKernel
}.

(** ** The world an asynchronous method runs in *)

(** One call of [provideVariables], as the provider received it. *)
Record Query := {
  q_parentId : option Z;
  q_kind : VariablesRequestKind;
  q_start : Z;
  q_token : CancellationToken
}.

Inductive Event :=
| Asked (q : Query)      (* provideVariables was called *)
| Pulled.                (* the next element of a sequence was requested *)

(** What the host does while a fetch is suspended. *)
Inductive HostAction :=
| Idle
| CallCancel.            (* dataSource.cancel() *)

Record World := {
  sources : list CancellationTokenSource;
  cancellationTokenSource : nat;       (* this.cancellationTokenSource *)
  log : list Event;
  schedule : list HostAction
}.

Inductive Failure :=
| ProviderFailure        (* the provider's sequence threw *)
| Cancelled.             (* the provider abandoned the query on cancellation *)

Inductive Outcome (A : Type) :=
| Returned (a : A) (w : World)
| Rejected (e : Failure) (w : World)
| Diverged.
Arguments Returned {A} _ _.
Arguments Rejected {A} _ _.
Arguments Diverged {A}.

Definition M (A : Type) : Type := World → Outcome A.

Definition ret {A} (a : A) : M A := λ w, Returned a w.

Definition bind {A B} (k : A → M B) (m : M A) : M B :=
  λ w, match m w with
       | Returned a w' => k a w'
       | Rejected e w' => Rejected e w'
       | Diverged => Diverged
       end.

#[export] Instance M_ret : MRet M := @ret.
#[export] Instance M_bind : MBind M := @bind.

Definition reject {A} (e : Failure) : M A := λ w, Rejected e w.

Definition diverge {A} : M A := λ _, Diverged.

(** The world an outcome leaves behind, if the run ended. *)
Definition outcome_world {A} (o : Outcome A) : option World :=
  match o with
  | Returned _ w | Rejected _ w => Some w
  | Diverged => None
  end.

(** [true] when [cancel()] was called on the source owning [t]. *)
Definition revoked (w : World) (t : CancellationToken) : bool :=
  match sources w !! t with
  | Some s => isCancellationRequested s
  | None => false
  end.

(** [this.cancellationTokenSource.token]. *)
Definition token : M CancellationToken :=
  λ w, Returned (cancellationTokenSource w) w.

(** The world with one more event in its log. *)
Definition record (e : Event) (w : World) : World :=
  {| sources := sources w;
     cancellationTokenSource := cancellationTokenSource w;
     log := log w ++ [e];
     schedule := schedule w |}.

Definition emit (e : Event) : M unit := λ w, Returned tt (record e w).

(** ** NotebookVariableDataSource *)

(** [constructor]: [this.cancellationTokenSource = new CancellationTokenSource()]. *)
Definition new_NotebookVariableDataSource (host : list HostAction) : World :=
  {| sources := [liveSource]; cancellationTokenSource := 0%nat;
     log := []; schedule := host |}.

(** [hasChildren(element)]. *)
Definition hasChildren (element : Element) : bool :=
  match element with
  | kind_root _ => true
  | kind_variable element =>
      Var.hasNamedChildren element || (0 <? Var.indexedChildrenCount element)
  end.

(** [cancel()]:
    [this.cancellationTokenSource.cancel();
     this.cancellationTokenSource.dispose();
     this.cancellationTokenSource = new CancellationTokenSource();] *)
Definition cancel (w : World) : World :=
  let current := cancellationTokenSource w in
  let cancelled := alter (λ s, {| isCancellationRequested := true;
                                  isDisposed := isDisposed s |}) current (sources w) in
  let disposed := alter (λ s, {| isCancellationRequested := isCancellationRequested s;
                                 isDisposed := true |}) current cancelled in
  {| sources := disposed ++ [liveSource];
     cancellationTokenSource := length disposed;
     log := log w;
     schedule := schedule w |}.

(** What the host does to the world at a suspension point: it runs its next
    scheduled action, if any. *)
Definition hostTurn (w : World) : World :=
  match schedule w with
  | [] => w
  | action :: later =>
      let w' := {| sources := sources w;
                   cancellationTokenSource := cancellationTokenSource w;
                   log := log w;
                   schedule := later |} in
      match action with Idle => w' | CallCancel => cancel w' end
  end.

Definition suspend : M unit := λ w, Returned tt (hostTurn w).

(** [await p] for the promise [p] of an asynchronous call: the call runs, and
    the caller is resumed after a suspension. *)
Definition await {A} (p : M A) : M A :=
  a ← p; suspend;; ret a.

(** Requesting the next element of a provider sequence: the caller is
    suspended while the provider works; a provider that watches a token
    abandons the query when it finds the token revoked. *)
Definition honour (watched : option CancellationToken) : M unit :=
  λ w, match watched with
       | Some t => if revoked w t then Rejected Cancelled w else Returned tt w
       | None => Returned tt w
       end.

Definition pull (watched : option CancellationToken) : M unit :=
  suspend;; emit Pulled;; honour watched.

(** [AsyncIterableObject.toPromise]: collect every element. *)
Fixpoint toPromise_from {A} (watched : option CancellationToken) (fails : bool)
    (rest : list A) (collected : list A) : M (list A) :=
  pull watched;;
  match rest with
  | [] => if fails then reject ProviderFailure else ret collected
  | x :: rest' => toPromise_from watched fails rest' (collected ++ [x])
  end.

Definition toPromise {A} (s : AsyncIterableObject A) : M (list A) :=
  toPromise_from (watches s) (throws s) (items s) [].

(** [kernel.provideVariables(...)] as the data source calls it: the call is
    logged with the arguments the provider received. *)
Definition callProvideVariables (kernel : INotebookKernel) (notebookUri : string)
    (parentId : option Z) (kind : VariablesRequestKind) (start : Z)
    (tok : CancellationToken) : M (AsyncIterableObject VR.t) :=
  emit (Asked {| q_parentId := parentId; q_kind := kind;
                 q_start := start; q_token := tok |});;
  ret (provideVariables kernel notebookUri parentId kind start tok).

(** [createVariableElement(variable, notebook)]:
    [{ ...variable, kind: 'variable', notebook, extHostId: variable.id,
       id: `${variable.id}` }]. *)
Definition createVariableElement (variable : VR.t) (notebook : NotebookTextModel)
    : Var.t :=
  {| Var.id := pretty (VR.id variable);
     Var.extHostId := VR.id variable;
     Var.name := VR.name variable;
     Var.value := VR.value variable;
     Var.type := VR.type variable;
     Var.indexedChildrenCount := VR.indexedChildrenCount variable;
     Var.indexStart := None;
     Var.hasNamedChildren := VR.hasNamedChildren variable;
     Var.notebook := notebook |}.

Section DataSource.

(** [variablePageSize] is a constant of [notebookKernelService]; the data
    source is studied for an arbitrary value of it. *)
Variable variablePageSize : Z.

(** [private readonly notebookKernelService]. *)
Variable notebookKernelService : INotebookKernelService.

(** The object literal pushed by the range-splitting loop, for the block
    from [start] to [end_]. *)
Definition rangeElement (parent : Var.t) (start end_ : Z) : Var.t :=
  {| Var.id := Var.id parent +:+ pretty start;
     Var.extHostId := Var.extHostId parent;
     Var.name := "[" +:+ pretty start +:+ ".." +:+ pretty (end_ - 1) +:+ "]";
     Var.value := "";
     Var.type := None;
     Var.indexedChildrenCount := end_ - start;
     Var.indexStart := Some start;
     Var.hasNamedChildren := false;
     Var.notebook := Var.notebook parent |}.

(** [for (let start = 0; start < parent.indexedChildrenCount;
         start += variablePageSize) { ... childNodes.push({...}) }] *)
Fixpoint rangeLoop (fuel : nat) (parent : Var.t) (start : Z)
    (childNodes : list Var.t) : option (list Var.t) :=
  match fuel with
  | O => None
  | S fuel' =>
      if start <? Var.indexedChildrenCount parent then
        let end_ := start + variablePageSize in
        let end_ := if end_ >? Var.indexedChildrenCount parent
                    then Var.indexedChildrenCount parent else end_ in
        rangeLoop fuel' parent (start + variablePageSize)
          (childNodes ++ [rangeElement parent start end_])
      else Some childNodes
  end.

(** [for await (const variable of variables) {
       childNodes.push(this.createVariableElement(variable, parent.notebook));
       if (childNodes.length >= variablePageSize) { break; } }] *)
Fixpoint forAwait (watched : option CancellationToken) (fails : bool)
    (variables : list VR.t) (notebook : NotebookTextModel)
    (childNodes : list Var.t) : M (list Var.t) :=
  pull watched;;
  match variables with
  | [] => if fails then reject ProviderFailure else ret childNodes
  | variable :: rest =>
      let childNodes := childNodes ++ [createVariableElement variable notebook] in
      if Z.of_nat (length childNodes) >=? variablePageSize
      then ret childNodes
      else forAwait watched fails rest notebook childNodes
  end.

(** [getIndexedChildren(parent, kernel)]. *)
Definition getIndexedChildren (fuel : nat) (parent : Var.t)
    (kernel : INotebookKernel) : M (list Var.t) :=
  let childNodes : list Var.t := [] in
  if Var.indexedChildrenCount parent >? variablePageSize then
    match rangeLoop fuel parent 0 childNodes with
    | Some childNodes => ret childNodes
    | None => diverge
    end
  else if Var.indexedChildrenCount parent >? 0 then
    tok ← token;
    variables ← callProvideVariables kernel (uri (Var.notebook parent))
                  (Some (Var.extHostId parent)) indexed
                  (default 0 (Var.indexStart parent)) tok;
    forAwait (watches variables) (throws variables) (items variables)
      (Var.notebook parent) childNodes
  else ret childNodes.

(** The first block of [getVariables]:
    [if (parent.hasNamedChildren) { ... children = children.concat(childNodes); }] *)
Definition namedChildren (parent : Var.t) (selectedKernel : INotebookKernel)
    (children : list Var.t) : M (list Var.t) :=
  if Var.hasNamedChildren parent then
    tok ← token;
    variables ← callProvideVariables selectedKernel (uri (Var.notebook parent))
                  (Some (Var.extHostId parent)) named 0 tok;
    childNodes ← await (toPromise
      (map_async (λ variable, createVariableElement variable (Var.notebook parent))
         variables));
    ret (children ++ childNodes)
  else ret children.

(** The second block of [getVariables]:
    [if (parent.indexedChildrenCount > 0) { ... children = children.concat(childNodes); }] *)
Definition indexedChildren (fuel : nat) (parent : Var.t)
    (selectedKernel : INotebookKernel) (children : list Var.t) : M (list Var.t) :=
  if Var.indexedChildrenCount parent >? 0 then
    childNodes ← await (getIndexedChildren fuel parent selectedKernel);
    ret (children ++ childNodes)
  else ret children.

(** [getVariables(parent)]. *)
Definition getVariables (fuel : nat) (parent : Var.t) : M (list Var.t) :=
  match selected notebookKernelService (Var.notebook parent) with
  | Some selectedKernel =>
      if hasVariableProvider selectedKernel then
        children ← namedChildren parent selectedKernel [];
        children ← indexedChildren fuel parent selectedKernel children;
        ret children
      else ret []
  | None => ret []
  end.

(** [getRootVariables(notebook)]. *)
Definition getRootVariables (notebook : NotebookTextModel) : M (list Var.t) :=
  match selected notebookKernelService notebook with
  | Some selectedKernel =>
      if hasVariableProvider selectedKernel then
        tok ← token;
        variables ← callProvideVariables selectedKernel (uri notebook)
                      None named 0 tok;
        await (toPromise
          (map_async (λ variable, createVariableElement variable notebook) variables))
      else ret []
  | None => ret []
  end.

(** [getChildren(element)]. *)
Definition getChildren (fuel : nat) (element : Element) : M (list Var.t) :=
  match element with
  | kind_root scope => getRootVariables (INotebookScope.notebook scope)
  | kind_variable element => getVariables fuel element
  end.

End DataSource.

(** * Vocabulary of the statements *)

(** ** Worlds and runs *)

(** The world after [n] suspensions at which the host stayed idle, with the
    events [evs] logged meanwhile. *)
Definition advance (n : nat) (evs : list Event) (w : World) : World :=
  {| sources := sources w;
     cancellationTokenSource := cancellationTokenSource w;
     log := log w ++ evs;
     schedule := drop n (schedule w) |}.

(** The host stays idle at the next [n] suspensions. *)
Definition idle (n : nat) (w : World) : Prop :=
  Forall (λ action, action = Idle) (take n (schedule w)).

(** The tokens that sequences of the kernel may watch are live in [w]. *)
Definition unrevoked (w : World) (watched : option CancellationToken) : Prop :=
  ∀ t, watched = Some t → revoked w t = false.

(** Nothing is scheduled and the current token is live. *)
Definition quiet (w : World) : Prop :=
  schedule w = [] ∧ revoked w (cancellationTokenSource w) = false.

(** The provider has been signalled to abandon the query [q]: the handle
    the query carries is revoked. *)
Definition signalled (w : World) (q : Query) : bool := revoked w (q_token q).

(** ** Queries and providers *)

(** The query [getIndexedChildren] issues for [parent] in the world [w]. *)
Definition indexedQuery (parent : Var.t) (w : World) : Query :=
  {| q_parentId := Some (Var.extHostId parent);
     q_kind := indexed;
     q_start := default 0 (Var.indexStart parent);
     q_token := cancellationTokenSource w |}.

(** The query the first block of [getVariables] issues for [parent]. *)
Definition namedQuery (parent : Var.t) (w : World) : Query :=
  {| q_parentId := Some (Var.extHostId parent);
     q_kind := named;
     q_start := 0;
     q_token := cancellationTokenSource w |}.

(** What the provider answers to a query about [notebook]. *)
Definition answer (kernel : INotebookKernel) (notebook : NotebookTextModel)
    (q : Query) : AsyncIterableObject VR.t :=
  provideVariables kernel (uri notebook) (q_parentId q) (q_kind q) (q_start q) (q_token q).

(** A provider that does not fail, and that watches no token but the one
    it was given. *)
Definition wellBehaved (kernel : INotebookKernel) : Prop :=
  ∀ notebookUri parentId kind start tok,
    let variables := provideVariables kernel notebookUri parentId kind start tok in
    throws variables = false ∧ ∀ t, watches variables = Some t → t = tok.

(** ** Pages *)

Section Vocabulary.

(** The page size. *)
Variable P : Z.

(** Number of pages of a collection of [count] elements: ceil (count / P). *)
Definition pageCount (count : Z) : nat := Z.to_nat ((count + P - 1) / P).

(** The blocks the range-splitting loop goes through, [k] of them from
    offset [start]. *)
Fixpoint pages (parent : Var.t) (start : Z) (k : nat) : list Var.t :=
  match k with
  | O => []
  | S k' =>
      rangeElement parent start
        (Z.min (start + P) (Var.indexedChildrenCount parent))
      :: pages parent (start + P) k'
  end.

(** A node synthesized for a block of the indexed children of [element], a
    variable whose count exceeds the page: the block is a proper part of
    the collection. *)
Definition isRange (element : Element) (node : Var.t) : Prop :=
  ∃ parent start end_,
    element = kind_variable parent ∧
    P < Var.indexedChildrenCount parent ∧
    0 ≤ start ∧ start < end_ ∧ end_ ≤ Var.indexedChildrenCount parent ∧
    end_ - start < Var.indexedChildrenCount parent ∧
    node = rangeElement parent start end_.

End Vocabulary.

(** A node wrapped from a provider result of the element's notebook. *)
Definition isWrapped (element : Element) (node : Var.t) : Prop :=
  ∃ v, node = createVariableElement v (Element_notebook element).

(** ** Examples

    The notebook of the specification's worked example: a variable [x]
    (handle 7), an array [arr] of 250 elements (handle 8), and an object
    [obj] (handle 9) with three named children and two indexed children, of
    which the provider yields three. *)

Definition example_notebook : NotebookTextModel := {| uri := "file:///example.ipynb" |}.

Definition example_x : VR.t := VR.mk 7 "x" "1" None false 0.
Definition example_arr : VR.t := VR.mk 8 "arr" "[...]" (Some "list") false 250.
Definition example_obj : VR.t := VR.mk 9 "obj" "{...}" None true 2.
Definition example_field (i : Z) : VR.t := VR.mk (10 + i) "field" "0" None false 0.
Definition example_item (i : Z) : VR.t := VR.mk (1000 + i) (pretty i) "0" None false 0.

Definition example_items (parentId : option Z) (kind : VariablesRequestKind)
    (start : Z) : list VR.t :=
  match parentId, kind with
  | None, named => [example_x; example_arr; example_obj]
  | Some 8, indexed => example_item <$> seqZ start (250 - start)
  | Some 9, named => example_field <$> seqZ 0 3
  | Some 9, indexed => example_item <$> seqZ start (3 - start)
  | _, _ => []
  end.

(** A provider that honours cancellation: every sequence watches the token
    it was given. *)
Definition example_kernel : INotebookKernel :=
  {| hasVariableProvider := true;
     provideVariables := λ _ parentId kind start tok,
       {| items := example_items parentId kind start;
          throws := false;
          watches := Some tok |} |}.

Definition example_service : INotebookKernelService :=
  {| selected := λ _, Some example_kernel |}.

Definition no_kernel_service : INotebookKernelService :=
  {| selected := λ _, None |}.

Definition example_arr_element : Var.t :=
  createVariableElement example_arr example_notebook.

Definition example_obj_element : Var.t :=
  createVariableElement example_obj example_notebook.

(** ** Vocabulary of the further properties *)

(** What a run can do to the world: let the host take a turn, or log an
    event. *)
Inductive evolves : World → World → Prop :=
| evolves_refl w : evolves w w
| evolves_host w w' : evolves w w' → evolves w (hostTurn w')
| evolves_record w w' e : evolves w w' → evolves w (record e w').

(** The data source holds exactly one live handle: the current source is
    the last one allocated, it is neither cancelled nor disposed, and every
    other source is cancelled and disposed. *)
Definition oneLiveHandle (w : World) : Prop :=
  S (cancellationTokenSource w) = length (sources w) ∧
  ∀ t s, sources w !! t = Some s →
    s = if decide (t = cancellationTokenSource w) then liveSource
        else {| isCancellationRequested := true; isDisposed := true |}.

(** The chunks of [L] that the pages from [start] ask for, [k] of them of
    [p] elements at most. *)
Fixpoint chunks {A} (p : nat) (L : list A) (start : nat) (k : nat) : list (list A) :=
  match k with
  | O => []
  | S k' => take p (drop start L) :: chunks p L (start + p) k'
  end.

(** A provider whose sequences fail at their end. *)
Definition failing_kernel : INotebookKernel :=
  {| hasVariableProvider := true;
     provideVariables := λ _ parentId kind start tok,
       {| items := example_items parentId kind start;
          throws := true;
          watches := Some tok |} |}.

Definition failing_service : INotebookKernelService :=
  {| selected := λ _, Some failing_kernel |}.

Definition example_scope : INotebookScope.t := INotebookScope.mk example_notebook.

Definition example_x_element : Var.t :=
  createVariableElement example_x example_notebook.

(** * Properties *)

(** ** The monad *)

Lemma bind_run {A B} (m : M A) (k : A → M B) (w : World) :
  (m ≫= k) w =
  match m w with
  | Returned a w' => k a w'
  | Rejected e w' => Rejected e w'
  | Diverged => Diverged
  end.
Proof. reflexivity. Qed.

Lemma await_run {A} (p : M A) (w : World) :
  await p w =
  match p w with
  | Returned a w' => Returned a (hostTurn w')
  | Rejected e w' => Rejected e w'
  | Diverged => Diverged
  end.
Proof. unfold await. rewrite bind_run. by destruct (p w). Qed.

(** ** Worlds *)

Lemma advance_0_nil w : advance 0 [] w = w.
Proof. destruct w. unfold advance. simpl. by rewrite app_nil_r. Qed.

Lemma advance_advance n m evs evs' w :
  advance m evs' (advance n evs w) = advance (n + m) (evs ++ evs') w.
Proof. unfold advance. simpl. by rewrite drop_drop, app_assoc. Qed.

Lemma revoked_advance n evs w t : revoked (advance n evs w) t = revoked w t.
Proof. reflexivity. Qed.

Lemma revoked_record e w t : revoked (record e w) t = revoked w t.
Proof. reflexivity. Qed.

Lemma idle_nil n w : schedule w = [] → idle n w.
Proof. unfold idle. intros ->. rewrite take_nil. constructor. Qed.

Lemma idle_split n m evs w :
  idle (n + m) w → idle n w ∧ idle m (advance n evs w).
Proof.
  unfold idle. simpl. rewrite <- take_take_drop. apply Forall_app.
Qed.

Lemma hostTurn_idle w : idle 1 w → hostTurn w = advance 1 [] w.
Proof.
  unfold idle, hostTurn, advance. destruct w as [ss c l [|a sch]]; simpl.
  - intros _. by rewrite app_nil_r.
  - intros H. apply Forall_cons in H as [-> _]. by rewrite app_nil_r, drop_0.
Qed.

Lemma log_cancel w : log (cancel w) = log w.
Proof. reflexivity. Qed.

Lemma log_hostTurn w : log (hostTurn w) = log w.
Proof. unfold hostTurn. destruct (schedule w) as [|[] ?]; reflexivity. Qed.

(** ** [cancel()] *)

Lemma cancel_token w :
  cancellationTokenSource (cancel w) = length (sources w).
Proof. unfold cancel. simpl. by rewrite !length_alter. Qed.

Lemma cancel_sources w t :
  (t < length (sources w))%nat →
  sources (cancel w) !! t =
  if decide (t = cancellationTokenSource w)
  then (λ s, {| isCancellationRequested := true; isDisposed := true |}) <$> sources w !! t
  else sources w !! t.
Proof.
  intros Ht. unfold cancel. simpl.
  rewrite lookup_app_l by by rewrite !length_alter.
  case_decide as Heq.
  - subst t. rewrite !list_lookup_alter_eq. by destruct (sources w !! _).
  - by rewrite !list_lookup_alter_ne.
Qed.

(** The handle that was current is revoked. *)
Lemma cancel_revokes_current w :
  (cancellationTokenSource w < length (sources w))%nat →
  revoked (cancel w) (cancellationTokenSource w) = true.
Proof.
  intros Hwf. unfold revoked. rewrite cancel_sources by done.
  rewrite decide_True by done.
  destruct (lookup_lt_is_Some_2 _ _ Hwf) as [s ->]. reflexivity.
Qed.

(** The handle installed is brand-new and live. *)
Lemma cancel_installs_live w :
  sources (cancel w) !! cancellationTokenSource (cancel w) = Some liveSource.
Proof.
  unfold cancel. simpl. rewrite lookup_app_r by done.
  by rewrite Nat.sub_diag.
Qed.

Lemma cancel_current_live w :
  revoked (cancel w) (cancellationTokenSource (cancel w)) = false.
Proof. unfold revoked. by rewrite cancel_installs_live. Qed.

(** A revoked handle stays revoked. *)
Lemma cancel_keeps_revoked w t :
  revoked w t = true → revoked (cancel w) t = true.
Proof.
  unfold revoked. destruct (sources w !! t) as [s|] eqn:Hs; [|done].
  intros Hrev. rewrite cancel_sources by by eapply lookup_lt_Some.
  rewrite Hs. by case_decide.
Qed.

Lemma cancel_schedule w : schedule (cancel w) = schedule w.
Proof. reflexivity. Qed.

(** ** Pulling from a provider sequence *)

Lemma pull_run watched w :
  pull watched w = honour watched (record Pulled (hostTurn w)).
Proof. reflexivity. Qed.

Lemma pull_cases watched w :
  pull watched w = Returned tt (record Pulled (hostTurn w)) ∨
  pull watched w = Rejected Cancelled (record Pulled (hostTurn w)).
Proof.
  rewrite pull_run. unfold honour. destruct watched as [t|]; [|by left].
  destruct (revoked _ t); [by right|by left].
Qed.

Lemma record_advance e n evs w :
  record e (advance n evs w) = advance n (evs ++ [e]) w.
Proof. unfold record, advance. simpl. by rewrite app_assoc. Qed.

Lemma pull_idle watched w :
  idle 1 w → unrevoked w watched →
  pull watched w = Returned tt (advance 1 [Pulled] w).
Proof.
  intros Hidle Hlive.
  rewrite pull_run, (hostTurn_idle _ Hidle), record_advance. simpl.
  unfold honour. destruct watched as [t|]; [|reflexivity].
  rewrite revoked_advance, (Hlive t eq_refl). reflexivity.
Qed.

Lemma unrevoked_advance n evs w watched :
  unrevoked w watched → unrevoked (advance n evs w) watched.
Proof. exact id. Qed.

(** [toPromise] when the host stays idle and the token stays live: every
    element is collected, one pull each and one more to find the end. *)
Lemma toPromise_from_idle {A} watched fails (rest : list A) :
  ∀ collected w,
    idle (S (length rest)) w → unrevoked w watched →
    toPromise_from watched fails rest collected w =
    let w' := advance (S (length rest)) (replicate (S (length rest)) Pulled) w in
    if fails then Rejected ProviderFailure w' else Returned (collected ++ rest) w'.
Proof.
  induction rest as [|x rest IH]; intros collected w Hidle Hlive; simpl.
  - rewrite bind_run, (pull_idle _ _ Hidle Hlive). rewrite app_nil_r.
    by destruct fails.
  - apply (idle_split 1 (S (length rest)) [Pulled]) in Hidle as [H1 Hrest].
    rewrite bind_run, (pull_idle _ _ H1 Hlive).
    rewrite (IH _ _ Hrest (unrevoked_advance _ _ _ _ Hlive)). simpl.
    rewrite advance_advance, <- app_assoc. reflexivity.
Qed.

(** Whatever the host does, [toPromise] returns all the elements or none. *)
Lemma toPromise_from_returned {A} watched fails (rest : list A) :
  ∀ collected w l w',
    toPromise_from watched fails rest collected w = Returned l w' →
    l = collected ++ rest.
Proof.
  induction rest as [|x rest IH]; intros collected w l w'; simpl;
    rewrite bind_run; destruct (pull_cases watched w) as [-> | ->]; try done.
  - destruct fails; [done|]. intros [= <- _]. by rewrite app_nil_r.
  - intros H. apply IH in H. by rewrite <- app_assoc in H.
Qed.

(** Whatever the host does, [toPromise] only adds pulls to the log. *)
Lemma toPromise_from_log {A} watched fails (rest : list A) :
  ∀ collected w,
    ∃ w' (n : nat),
      outcome_world (toPromise_from watched fails rest collected w) = Some w' ∧
      log w' = log w ++ replicate n Pulled.
Proof.
  assert (∀ w, log (record Pulled (hostTurn w)) = log w ++ replicate 1 Pulled)
    as Hone by (intros; simpl; by rewrite log_hostTurn).
  induction rest as [|x rest IH]; intros collected w; simpl;
    rewrite bind_run; destruct (pull_cases watched w) as [-> | ->];
    try (eexists _, 1%nat; split; [reflexivity|apply Hone]).
  - destruct fails; (eexists _, 1%nat; split; [reflexivity|apply Hone]).
  - destruct (IH (collected ++ [x]) (record Pulled (hostTurn w)))
      as (w' & n & Hw' & Hlog).
    exists w', (S n). split; [done|]. by rewrite Hlog, Hone, <- app_assoc.
Qed.

Lemma record_as_advance e w : record e w = advance 0 [e] w.
Proof. unfold record, advance. by rewrite drop_0. Qed.

Lemma hostTurn_nil w : schedule w = [] → hostTurn w = w.
Proof. unfold hostTurn. by intros ->. Qed.

Lemma advance_nil n evs w : schedule w = [] → advance n evs w = advance 0 evs w.
Proof. unfold advance. intros ->. by rewrite drop_nil. Qed.

Section Paging.

Variable P : Z.

Lemma pages_length parent : ∀ k start, length (pages P parent start k) = k.
Proof. induction k as [|k IH]; intros start; simpl; [done|]. by rewrite IH. Qed.

Lemma pages_lookup parent :
  ∀ k start (i : nat),
    (i < k)%nat →
    pages P parent start k !! i =
    Some (rangeElement parent (start + Z.of_nat i * P)
            (Z.min (start + Z.of_nat i * P + P) (Var.indexedChildrenCount parent))).
Proof.
  induction k as [|k IH]; intros start i Hi; [lia|].
  destruct i as [|i]; simpl pages; simpl lookup.
  - by rewrite Z.mul_0_l, Z.add_0_r.
  - rewrite IH by lia. do 2 f_equal; [|f_equal]; lia.
Qed.

(** [let end = start + P; if (end > count) { end = count; }] is a minimum. *)
Lemma clamp_min (a b : Z) : (if a >? b then b else a) = Z.min a b.
Proof. destruct (Z.gtb_spec a b); lia. Qed.

(** The loop, given fuel for [k] iterations and the final test, builds the
    [k] pages that remain from [start]. *)
Lemma rangeLoop_pages parent :
  ∀ (k fuel : nat) start childNodes,
    0 < P → (k < fuel)%nat →
    Var.indexedChildrenCount parent ≤ start + Z.of_nat k * P →
    ((0 < k)%nat → start + (Z.of_nat k - 1) * P < Var.indexedChildrenCount parent) →
    rangeLoop P fuel parent start childNodes = Some (childNodes ++ pages P parent start k).
Proof.
  induction k as [|k IH]; intros fuel start childNodes HP Hfuel Hup Hlow;
    (destruct fuel as [|fuel]; [lia|]); simpl.
  - destruct (Z.ltb_spec start (Var.indexedChildrenCount parent)); [lia|].
    by rewrite app_nil_r.
  - specialize (Hlow ltac:(lia)). rewrite Nat2Z.inj_succ in Hlow, Hup.
    assert (0 ≤ Z.of_nat k * P) by (apply Z.mul_nonneg_nonneg; lia).
    destruct (Z.ltb_spec start (Var.indexedChildrenCount parent)); [|lia].
    rewrite IH; [|lia|lia|lia|intros; lia].
    rewrite <- app_assoc. simpl. by rewrite clamp_min.
Qed.

(** Whenever the loop ends, it has built pages, each starting below the
    count, and the next page would start at or above it. *)
Lemma rangeLoop_Some parent :
  ∀ fuel start childNodes result,
    rangeLoop P fuel parent start childNodes = Some result →
    ∃ k : nat,
      result = childNodes ++ pages P parent start k ∧
      Var.indexedChildrenCount parent ≤ start + Z.of_nat k * P ∧
      ∀ i : nat, (i < k)%nat → start + Z.of_nat i * P < Var.indexedChildrenCount parent.
Proof.
  induction fuel as [|fuel IH]; intros start childNodes result; simpl; [done|].
  destruct (Z.ltb_spec start (Var.indexedChildrenCount parent)) as [Hlt|Hge].
  - intros H. apply IH in H as (k & -> & Hup & Hlow). exists (S k).
    rewrite <- app_assoc. simpl. rewrite clamp_min. split; [done|].
    split; [lia|]. intros [|i] Hi; [lia|].
    specialize (Hlow i ltac:(lia)). lia.
  - intros [= <-]. exists 0%nat. rewrite app_nil_r. split; [done|].
    split; [lia|]. intros i Hi. lia.
Qed.

Lemma pages_elem parent r :
  ∀ k start, r ∈ pages P parent start k →
    ∃ i : nat,
      (i < k)%nat ∧
      r = rangeElement parent (start + Z.of_nat i * P)
            (Z.min (start + Z.of_nat i * P + P) (Var.indexedChildrenCount parent)).
Proof.
  intros k start [i Hi]%list_elem_of_lookup.
  pose proof (lookup_lt_Some _ _ _ Hi) as Hlt. rewrite pages_length in Hlt.
  rewrite pages_lookup in Hi by done. injection Hi as <-. by exists i.
Qed.

(** Without a positive page size the loop never ends. *)
Lemma rangeLoop_diverges parent :
  ∀ fuel start childNodes,
    P ≤ 0 → start < Var.indexedChildrenCount parent →
    rangeLoop P fuel parent start childNodes = None.
Proof.
  induction fuel as [|fuel IH]; intros start childNodes HP Hlt; simpl; [done|].
  destruct (Z.ltb_spec start (Var.indexedChildrenCount parent)); [|lia].
  apply IH; lia.
Qed.

(** The [for await] loop when the host stays idle and the token stays live:
    it stops at the end of the sequence or when the page is full, whichever
    comes first. *)
Lemma forAwait_idle watched fails notebook :
  ∀ variables childNodes w,
    Z.of_nat (length childNodes) < P →
    idle (S (length variables)) w → unrevoked w watched →
    forAwait P watched fails variables notebook childNodes w =
    let room := Z.to_nat (P - Z.of_nat (length childNodes)) in
    if (length variables <? room)%nat then
      let w' := advance (S (length variables))
                  (replicate (S (length variables)) Pulled) w in
      if fails then Rejected ProviderFailure w'
      else Returned
             (childNodes ++ ((λ v, createVariableElement v notebook) <$> variables)) w'
    else
      Returned
        (childNodes ++ ((λ v, createVariableElement v notebook) <$> take room variables))
        (advance room (replicate room Pulled) w).
Proof.
  induction variables as [|v rest IH]; intros childNodes w Hroom Hidle Hlive.
  - simpl. rewrite bind_run, (pull_idle _ _ Hidle Hlive).
    destruct (Nat.ltb_spec 0 (Z.to_nat (P - Z.of_nat (length childNodes)))); [|lia].
    rewrite app_nil_r. by destruct fails.
  - apply (idle_split 1 (S (length rest)) [Pulled]) in Hidle as [H1 Hrest].
    simpl forAwait. rewrite bind_run, (pull_idle _ _ H1 Hlive).
    rewrite length_app; cbn [length].
    destruct (Z.geb_spec (Z.of_nat (length childNodes + 1)) P) as [Hfull|Hmore].
    + replace (Z.to_nat (P - Z.of_nat (length childNodes))) with 1%nat by lia.
      simpl. by rewrite ?take_0.
    + assert (Z.of_nat (length (childNodes ++ [createVariableElement v notebook])) < P)
        as Hroom' by (rewrite length_app; simpl; lia).
      rewrite (IH _ _ Hroom' Hrest (unrevoked_advance _ _ _ _ Hlive)).
      rewrite length_app; cbn [length].
      replace (Z.to_nat (P - Z.of_nat (length childNodes)))
        with (S (Z.to_nat (P - Z.of_nat (length childNodes + 1)))) by lia.
      set (room := Z.to_nat (P - Z.of_nat (length childNodes + 1))).
      simpl. rewrite !advance_advance, <- !app_assoc. simpl.
      change (S (length rest) <? S room)%nat with (length rest <? room)%nat.
      reflexivity.
Qed.

(** Whatever the host and the provider do, the loop pulls at least once and
    never more often than there is room left in the page. *)
Lemma forAwait_pulls watched fails notebook :
  ∀ variables childNodes w,
    Z.of_nat (length childNodes) < P →
    ∃ w' (n : nat),
      outcome_world (forAwait P watched fails variables notebook childNodes w) = Some w' ∧
      log w' = log w ++ replicate n Pulled ∧
      (1 ≤ n)%nat ∧ Z.of_nat (length childNodes) + Z.of_nat n ≤ P.
Proof.
  assert (∀ w, log (record Pulled (hostTurn w)) = log w ++ replicate 1 Pulled)
    as Hone by (intros; simpl; by rewrite log_hostTurn).
  induction variables as [|v rest IH]; intros childNodes w Hroom;
    simpl forAwait; rewrite bind_run;
    destruct (pull_cases watched w) as [-> | ->];
    try (eexists _, 1%nat; split; [reflexivity|]; split; [apply Hone|lia]).
  - destruct fails;
      (eexists _, 1%nat; split; [reflexivity|]; split; [apply Hone|lia]).
  - rewrite length_app; cbn [length].
    destruct (Z.geb_spec (Z.of_nat (length childNodes + 1)) P) as [Hfull|Hmore].
    + eexists _, 1%nat; split; [reflexivity|]; split; [apply Hone|lia].
    + destruct (IH (childNodes ++ [createVariableElement v notebook])
                  (record Pulled (hostTurn w)))
        as (w' & n & Hw' & Hlog & Hn & Hle); [rewrite length_app; simpl; lia|].
      exists w', (S n). split; [done|]. rewrite Hlog, Hone, <- app_assoc.
      rewrite length_app in Hle; cbn [length] in Hle.
      split; [reflexivity|lia].
Qed.

(** Whatever the host does, what the loop returns wraps a prefix of the
    provider's sequence, in order, and fits the page. *)
Lemma forAwait_returned watched fails notebook :
  ∀ variables childNodes w children w',
    Z.of_nat (length childNodes) < P →
    forAwait P watched fails variables notebook childNodes w = Returned children w' →
    ∃ k : nat,
      children =
        childNodes ++ ((λ v, createVariableElement v notebook) <$> take k variables) ∧
      Z.of_nat (length childNodes) + Z.of_nat k ≤ P.
Proof.
  induction variables as [|v rest IH]; intros childNodes w children w' Hroom;
    simpl forAwait; rewrite bind_run;
    destruct (pull_cases watched w) as [-> | ->]; try done.
  - destruct fails; [done|]. intros [= <- _]. exists 0%nat.
    simpl. rewrite app_nil_r. split; [done|lia].
  - rewrite length_app; cbn [length].
    destruct (Z.geb_spec (Z.of_nat (length childNodes + 1)) P) as [Hfull|Hmore].
    + intros [= <- _]. exists 1%nat. simpl. rewrite ?take_0. split; [done|lia].
    + intros H. apply IH in H as (k & -> & Hk); [|rewrite length_app; simpl; lia].
      exists (S k). rewrite <- app_assoc. simpl. split; [done|].
      rewrite length_app in Hk; cbn [length] in Hk. lia.
Qed.

End Paging.

(** ** The data source *)

Section Claims.

(** The page size and the kernel service the data source was built with. *)
Variable P : Z.
Variable service : INotebookKernelService.

Lemma pageCount_bounds count :
  0 < P → 0 < count →
  (0 < pageCount P count)%nat ∧
  (Z.of_nat (pageCount P count) - 1) * P < count ≤ Z.of_nat (pageCount P count) * P.
Proof.
  intros HP Hc. unfold pageCount.
  pose proof (Z.div_mod (count + P - 1) P ltac:(lia)) as Hdm.
  pose proof (Z.mod_pos_bound (count + P - 1) P HP) as Hmod.
  assert (0 < (count + P - 1) / P) by (apply Z.div_str_pos; lia).
  rewrite Z2Nat.id by lia. split; [lia|]. nia.
Qed.

(** *** The range-splitting branch *)

Lemma getIndexedChildren_ranges fuel parent kernel w :
  0 < P → P < Var.indexedChildrenCount parent →
  (pageCount P (Var.indexedChildrenCount parent) < fuel)%nat →
  getIndexedChildren P fuel parent kernel w =
  Returned (pages P parent 0 (pageCount P (Var.indexedChildrenCount parent))) w.
Proof.
  intros HP HC Hfuel. unfold getIndexedChildren.
  destruct (Z.gtb_spec (Var.indexedChildrenCount parent) P); [|lia].
  destruct (pageCount_bounds (Var.indexedChildrenCount parent) HP ltac:(lia))
    as (Hpos & Hlow & Hup).
  rewrite (rangeLoop_pages P parent (pageCount P (Var.indexedChildrenCount parent)));
    [done|done|done|lia|intros; lia].
Qed.

(** *** The direct-query branch *)

Lemma getIndexedChildren_query fuel parent kernel w :
  0 < Var.indexedChildrenCount parent ≤ P →
  getIndexedChildren P fuel parent kernel w =
  let variables := answer kernel (Var.notebook parent) (indexedQuery parent w) in
  forAwait P (watches variables) (throws variables) (items variables)
    (Var.notebook parent) [] (record (Asked (indexedQuery parent w)) w).
Proof.
  intros [Hlow Hup]. unfold getIndexedChildren.
  destruct (Z.gtb_spec (Var.indexedChildrenCount parent) P); [lia|].
  destruct (Z.gtb_spec (Var.indexedChildrenCount parent) 0); [|lia].
  reflexivity.
Qed.

Lemma getIndexedChildren_query_log fuel parent kernel w :
  0 < Var.indexedChildrenCount parent ≤ P →
  ∃ w' (n : nat),
    outcome_world (getIndexedChildren P fuel parent kernel w) = Some w' ∧
    log w' = log w ++ Asked (indexedQuery parent w) :: replicate n Pulled ∧
    (1 ≤ n)%nat ∧ Z.of_nat n ≤ P.
Proof.
  intros HC. rewrite getIndexedChildren_query by done. cbv zeta.
  edestruct forAwait_pulls as (w' & n & Hw' & Hlog & Hn & Hle);
    [|exists w', n; split; [exact Hw'|]].
  - simpl. lia.
  - rewrite Hlog. simpl. rewrite <- app_assoc. simpl in Hle. by repeat split; try lia.
Qed.

Lemma getIndexedChildren_query_returned fuel parent kernel w children w' :
  0 < Var.indexedChildrenCount parent ≤ P →
  getIndexedChildren P fuel parent kernel w = Returned children w' →
  ∃ k : nat,
    children = (λ v, createVariableElement v (Var.notebook parent)) <$>
               take k (items (answer kernel (Var.notebook parent) (indexedQuery parent w))) ∧
    Z.of_nat k ≤ P.
Proof.
  intros HC. rewrite getIndexedChildren_query by done. cbv zeta. intros H.
  apply forAwait_returned in H as (k & -> & Hk); [|simpl; lia].
  exists k. simpl in *. split; [done|lia].
Qed.

(** The size of the last page. *)
Lemma last_page_size count (m : Z) :
  0 < P → m * P < count ≤ (m + 1) * P →
  count - m * P = if count mod P =? 0 then P else count mod P.
Proof.
  intros HP [Hlow Hup].
  destruct (decide (count = (m + 1) * P)) as [->|Hne].
  - rewrite Z.mod_mul by lia. simpl. lia.
  - assert (count mod P = count - m * P) as ->.
    { symmetry. apply (Z.mod_unique_pos _ _ m); lia. }
    destruct (Z.eqb_spec (count - m * P) 0); lia.
Qed.

(** *** What the first block of [getVariables] returns *)

Lemma namedChildren_run parent kernel children w :
  namedChildren parent kernel children w =
  if Var.hasNamedChildren parent then
    match toPromise
            (map_async (λ v, createVariableElement v (Var.notebook parent))
               (answer kernel (Var.notebook parent) (namedQuery parent w)))
            (record (Asked (namedQuery parent w)) w) with
    | Returned childNodes w1 => Returned (children ++ childNodes) (hostTurn w1)
    | Rejected e w1 => Rejected e w1
    | Diverged => Diverged
    end
  else Returned children w.
Proof.
  unfold namedChildren. destruct (Var.hasNamedChildren parent); [|done].
  rewrite bind_run. unfold token at 1. rewrite bind_run.
  unfold callProvideVariables at 1. rewrite bind_run. unfold emit at 1, mret, M_ret, ret at 1.
  rewrite bind_run, await_run. fold (namedQuery parent w).
  by destruct (toPromise _ _).
Qed.

Lemma namedChildren_returned parent kernel children w result w' :
  namedChildren parent kernel children w = Returned result w' →
  result = children ++
    if Var.hasNamedChildren parent
    then (λ v, createVariableElement v (Var.notebook parent)) <$>
         items (answer kernel (Var.notebook parent) (namedQuery parent w))
    else [].
Proof.
  rewrite namedChildren_run. destruct (Var.hasNamedChildren parent).
  - unfold toPromise.
    destruct (toPromise_from _ _ _ _ _) as [l w1| |] eqn:Hrun; try done.
    apply toPromise_from_returned in Hrun. simpl in Hrun. subst l.
    by intros [= <- _].
  - intros [= <- _]. by rewrite app_nil_r.
Qed.

Lemma getVariables_run fuel parent kernel w :
  selected service (Var.notebook parent) = Some kernel →
  hasVariableProvider kernel = true →
  getVariables P service fuel parent w =
  match namedChildren parent kernel [] w with
  | Returned children w1 => indexedChildren P fuel parent kernel children w1
  | Rejected e w1 => Rejected e w1
  | Diverged => Diverged
  end.
Proof.
  intros Hsel Hcap. unfold getVariables. rewrite Hsel, Hcap, bind_run.
  destruct (namedChildren parent kernel [] w) as [children w1| |]; try done.
  rewrite bind_run. by destruct (indexedChildren _ _ _ _ _ _).
Qed.

Lemma namedChildren_log parent kernel children w :
  Var.hasNamedChildren parent = true →
  ∃ w' (n : nat),
    outcome_world (namedChildren parent kernel children w) = Some w' ∧
    log w' = log w ++ Asked (namedQuery parent w) :: replicate n Pulled.
Proof.
  intros Hnamed. rewrite namedChildren_run, Hnamed. unfold toPromise.
  match goal with
  | |- context [toPromise_from ?a ?b ?c ?d ?e] =>
      destruct (toPromise_from_log a b c d e) as (w' & n & Hw' & Hlog);
      destruct (toPromise_from a b c d e) as [l w1|e1 w1|]
  end; simpl in Hw'; [| |done]; injection Hw' as ->.
  - exists (hostTurn w'), n. split; [done|].
    rewrite log_hostTurn, Hlog. simpl. by rewrite <- app_assoc.
  - exists w', n. split; [done|]. rewrite Hlog. simpl. by rewrite <- app_assoc.
Qed.

(** *** Runs during which the host stays idle *)

Lemma toPromise_idle {A B} (f : A → B) (variables : AsyncIterableObject A) w :
  idle (S (length (items variables))) w →
  unrevoked w (watches variables) → throws variables = false →
  toPromise (map_async f variables) w =
  Returned (f <$> items variables)
    (advance (S (length (items variables)))
       (replicate (S (length (items variables))) Pulled) w).
Proof.
  intros Hidle Hlive Hok. unfold toPromise, map_async. simpl.
  rewrite toPromise_from_idle; rewrite ?length_fmap; [|done|done].
  by rewrite Hok.
Qed.

Lemma namedChildren_idle parent kernel children w :
  let variables := answer kernel (Var.notebook parent) (namedQuery parent w) in
  let n := S (length (items variables)) in
  Var.hasNamedChildren parent = true →
  idle n w → unrevoked w (watches variables) → throws variables = false →
  namedChildren parent kernel children w =
  Returned
    (children ++ ((λ v, createVariableElement v (Var.notebook parent)) <$> items variables))
    (hostTurn (advance n (Asked (namedQuery parent w) :: replicate n Pulled) w)).
Proof.
  intros variables n Hnamed Hidle Hlive Hok.
  rewrite namedChildren_run, Hnamed, record_as_advance.
  apply (idle_split 0 n [Asked (namedQuery parent w)]) in Hidle as [_ Hidle].
  rewrite toPromise_idle by done. by rewrite advance_advance.
Qed.

Lemma getIndexedChildren_query_idle fuel parent kernel w :
  let variables := answer kernel (Var.notebook parent) (indexedQuery parent w) in
  let n := (S (length (items variables)) `min` Z.to_nat P)%nat in
  0 < Var.indexedChildrenCount parent ≤ P →
  idle (S (length (items variables))) w → unrevoked w (watches variables) →
  throws variables = false ∨ (Z.to_nat P ≤ length (items variables))%nat →
  getIndexedChildren P fuel parent kernel w =
  Returned
    ((λ v, createVariableElement v (Var.notebook parent)) <$>
       take (Z.to_nat P) (items variables))
    (advance n (Asked (indexedQuery parent w) :: replicate n Pulled) w).
Proof.
  intros variables n HC Hidle Hlive Hok.
  rewrite getIndexedChildren_query by done. cbv zeta. fold variables.
  rewrite record_as_advance.
  apply (idle_split 0 _ [Asked (indexedQuery parent w)]) in Hidle as [_ Hidle].
  rewrite forAwait_idle; [|simpl; lia|done|done]. cbv zeta. simpl length.
  rewrite Z.sub_0_r.
  destruct (Nat.ltb_spec (length (items variables)) (Z.to_nat P)) as [Hshort|Hlong].
  - assert (n = S (length (items variables))) as -> by (unfold n; lia).
    destruct Hok as [-> | ?]; [|lia].
    by rewrite advance_advance, take_ge by lia.
  - assert (n = Z.to_nat P) as -> by (unfold n; lia).
    by rewrite advance_advance.
Qed.

(** *** Runs the host does not interfere with *)

Lemma quiet_advance n evs w : quiet w → quiet (advance n evs w).
Proof. intros [Hs Hr]. split; [|done]. simpl. rewrite Hs. apply drop_nil. Qed.

Lemma quiet_unrevoked kernel notebook q w :
  quiet w → wellBehaved kernel → q_token q = cancellationTokenSource w →
  unrevoked w (watches (answer kernel notebook q)).
Proof.
  intros [_ Hlive] Hwb Htok t Ht. apply Hwb in Ht. rewrite Ht, Htok. exact Hlive.
Qed.

Lemma not_asked_in_pulls q n : Asked q ∉ replicate n Pulled.
Proof. by intros [? _]%elem_of_replicate. Qed.

Lemma asked_in_query q q' n : Asked q ∈ Asked q' :: replicate n Pulled → q = q'.
Proof.
  intros [[= ->]|Hin]%elem_of_cons; [done|]. by apply not_asked_in_pulls in Hin.
Qed.

Lemma namedChildren_quiet parent kernel children w :
  quiet w → wellBehaved kernel →
  ∃ evs,
    namedChildren parent kernel children w =
    Returned
      (children ++
       if Var.hasNamedChildren parent
       then (λ v, createVariableElement v (Var.notebook parent)) <$>
            items (answer kernel (Var.notebook parent) (namedQuery parent w))
       else [])
      (advance 0 evs w) ∧
    ∀ q, Asked q ∈ evs → q_token q = cancellationTokenSource w.
Proof.
  intros Hq Hwb. destruct (Var.hasNamedChildren parent) eqn:Hnamed.
  - eexists. split.
    + rewrite namedChildren_idle;
        [|done|apply idle_nil, Hq|by apply quiet_unrevoked|apply Hwb].
      rewrite hostTurn_nil by apply quiet_advance, Hq.
      by rewrite advance_nil by apply Hq.
    + by intros q ->%asked_in_query.
  - exists []. split; [|by intros q ?%elem_of_nil].
    unfold namedChildren. by rewrite Hnamed, app_nil_r, advance_0_nil.
Qed.

Lemma indexedChildren_quiet fuel parent kernel children w :
  0 < P → (pageCount P (Var.indexedChildrenCount parent) < fuel)%nat →
  quiet w → wellBehaved kernel →
  ∃ indexedNodes evs,
    indexedChildren P fuel parent kernel children w =
    Returned (children ++ indexedNodes) (advance 0 evs w) ∧
    ∀ q, Asked q ∈ evs → q_token q = cancellationTokenSource w.
Proof.
  intros HP Hfuel Hq Hwb. unfold indexedChildren.
  destruct (Z.gtb_spec (Var.indexedChildrenCount parent) 0) as [Hpos|Hzero].
  - rewrite bind_run, await_run.
    destruct (Z_lt_le_dec P (Var.indexedChildrenCount parent)) as [Hbig|Hsmall].
    + rewrite getIndexedChildren_ranges, hostTurn_nil by (done || apply Hq).
      eexists _, []. rewrite advance_0_nil. split; [done|by intros q ?%elem_of_nil].
    + rewrite getIndexedChildren_query_idle;
        [|lia|apply idle_nil, Hq|by apply quiet_unrevoked|left; apply Hwb].
      rewrite hostTurn_nil by apply quiet_advance, Hq.
      rewrite advance_nil by apply Hq.
      eexists _, _. split; [done|]. by intros q ->%asked_in_query.
  - exists [], []. rewrite app_nil_r, advance_0_nil.
    split; [done|by intros q ?%elem_of_nil].
Qed.

Lemma getRootVariables_quiet notebook kernel w :
  selected service notebook = Some kernel → hasVariableProvider kernel = true →
  quiet w → wellBehaved kernel →
  ∃ children evs,
    getRootVariables service notebook w = Returned children (advance 0 evs w) ∧
    ∀ q, Asked q ∈ evs → q_token q = cancellationTokenSource w.
Proof.
  intros Hsel Hcap Hq Hwb. unfold getRootVariables. rewrite Hsel, Hcap.
  rewrite bind_run. unfold token at 1. rewrite bind_run.
  unfold callProvideVariables at 1. rewrite bind_run.
  unfold emit at 1, mret, M_ret, ret at 1. rewrite await_run, record_as_advance.
  set (q := {| q_parentId := None; q_kind := named; q_start := 0;
               q_token := cancellationTokenSource w |}).
  change (provideVariables kernel (uri notebook) None named 0 (cancellationTokenSource w))
    with (answer kernel notebook q).
  rewrite toPromise_idle;
    [|apply idle_nil, quiet_advance, Hq
     |by apply unrevoked_advance, quiet_unrevoked|apply Hwb].
  rewrite advance_advance, hostTurn_nil by apply quiet_advance, Hq.
  rewrite advance_nil by apply Hq.
  eexists _, _. split; [done|]. by intros q' ->%asked_in_query.
Qed.

(** A fetch the host does not interfere with, from a well-behaved provider,
    returns normally, and every query it issues carries the current token. *)
Lemma getChildren_quiet fuel element w :
  0 < P →
  (∀ parent, element = kind_variable parent →
             (pageCount P (Var.indexedChildrenCount parent) < fuel)%nat) →
  (∀ kernel, selected service (Element_notebook element) = Some kernel →
             wellBehaved kernel) →
  quiet w →
  ∃ children evs,
    getChildren P service fuel element w = Returned children (advance 0 evs w) ∧
    ∀ q, Asked q ∈ evs → q_token q = cancellationTokenSource w.
Proof.
  intros HP Hfuel Hwb Hq.
  assert (∃ children evs,
            @Returned (list Var.t) [] w = Returned children (advance 0 evs w) ∧
            ∀ q, Asked q ∈ evs → q_token q = cancellationTokenSource w) as Hnone.
  { exists [], []. rewrite advance_0_nil. split; [done|by intros q ?%elem_of_nil]. }
  destruct element as [scope|parent]; simpl in *.
  - destruct (selected service (INotebookScope.notebook scope)) as [kernel|] eqn:Hsel.
    + destruct (hasVariableProvider kernel) eqn:Hcap.
      * by apply (getRootVariables_quiet _ kernel); auto.
      * unfold getRootVariables. by rewrite Hsel, Hcap.
    + unfold getRootVariables. by rewrite Hsel.
  - destruct (selected service (Var.notebook parent)) as [kernel|] eqn:Hsel.
    + destruct (hasVariableProvider kernel) eqn:Hcap.
      * rewrite (getVariables_run _ _ kernel) by done.
        destruct (namedChildren_quiet parent kernel [] w Hq (Hwb _ eq_refl))
          as (evs1 & -> & Hevs1).
        destruct (indexedChildren_quiet fuel parent kernel
                    ([] ++ if Var.hasNamedChildren parent
                           then (λ v, createVariableElement v (Var.notebook parent)) <$>
                                items (answer kernel (Var.notebook parent)
                                         (namedQuery parent w))
                           else [])
                    (advance 0 evs1 w) HP (Hfuel _ eq_refl)
                    (quiet_advance _ _ _ Hq) (Hwb _ eq_refl))
          as (indexedNodes & evs2 & -> & Hevs2).
        rewrite advance_advance. eexists _, _. split; [done|].
        intros q [Hin|Hin]%elem_of_app; [by apply Hevs1|by apply Hevs2].
      * unfold getVariables. by rewrite Hsel, Hcap.
    + unfold getVariables. by rewrite Hsel.
Qed.

(** *** C3 *)

(** C3. [hasChildren] is a function of the element alone (it takes no world,
    so it asks the provider nothing): it is [true] for the scope, and for a
    variable it is [true] exactly when [hasNamedChildren] is set or
    [indexedChildrenCount] is positive. *)
Theorem hasChildren_iff :
  (∀ scope, hasChildren (kind_root scope) = true) ∧
  (∀ element,
     hasChildren (kind_variable element) = true ↔
     Var.hasNamedChildren element = true ∨ 0 < Var.indexedChildrenCount element).
Proof.
  split; [done|]. intros element. unfold hasChildren.
  rewrite orb_true_iff, Z.ltb_lt. reflexivity.
Qed.

(** *** C5 *)

(** C5. When no kernel is selected for the element's notebook, or the
    selected kernel has no variable provider, [getChildren] returns the empty
    list, for the scope and for a variable alike; it does not fail, asks the
    provider nothing and is never suspended. *)
Theorem getChildren_without_provider (fuel : nat) (element : Element) (w : World) :
  selected service (Element_notebook element) = None ∨
  (∃ kernel, selected service (Element_notebook element) = Some kernel ∧
             hasVariableProvider kernel = false) →
  getChildren P service fuel element w = Returned [] w.
Proof.
  intros Hno. destruct element as [scope|parent]; simpl in *;
    unfold getRootVariables, getVariables;
    destruct Hno as [-> | (kernel & -> & ->)]; reflexivity.
Qed.

(** *** C1 *)

(** C1. A variable with [indexedChildrenCount = C > P] (for a positive page
    size [P], a kernel with a variable provider being selected): the indexed
    part is computed without any provider query, indeed without touching the
    world; it consists of exactly [ceil (C / P)] range elements; the element
    at position [i] starts at [i * P]; every element but the last counts [P]
    children and the last counts [C mod P] children, or [P] when [P] divides
    [C], and ends at [C].  [getChildren] returns these ranges after whatever
    the named part returned, and exactly these when the variable has no
    named children. *)
Theorem getChildren_range_split (fuel : nat) (parent : Var.t)
    (kernel : INotebookKernel) (w : World) :
  let C := Var.indexedChildrenCount parent in
  0 < P → P < C →
  selected service (Var.notebook parent) = Some kernel →
  hasVariableProvider kernel = true →
  (pageCount P C < fuel)%nat →
  ∃ ranges : list Var.t,
    getIndexedChildren P fuel parent kernel w = Returned ranges w ∧
    getChildren P service fuel (kind_variable parent) w =
      match namedChildren parent kernel [] w with
      | Returned children w1 => Returned (children ++ ranges) (hostTurn w1)
      | failed => failed
      end ∧
    (Var.hasNamedChildren parent = false →
     getChildren P service fuel (kind_variable parent) w = Returned ranges (hostTurn w)) ∧
    (∀ children w1,
       namedChildren parent kernel [] w = Returned children w1 →
       ∀ c, c ∈ children → Var.indexStart c = None) ∧
    length ranges = pageCount P C ∧
    (Z.of_nat (pageCount P C) - 1) * P < C ≤ Z.of_nat (pageCount P C) * P ∧
    ∀ i : nat, (i < pageCount P C)%nat →
      ∃ r, ranges !! i = Some r ∧
           Var.indexStart r = Some (Z.of_nat i * P) ∧
           ((S i < pageCount P C)%nat → Var.indexedChildrenCount r = P) ∧
           (S i = pageCount P C →
            Var.indexedChildrenCount r = (if C mod P =? 0 then P else C mod P) ∧
            Z.of_nat i * P + Var.indexedChildrenCount r = C).
Proof.
  intros C HP HC Hsel Hcap Hfuel.
  destruct (pageCount_bounds C HP ltac:(lia)) as (Hpos & Hlow & Hup).
  exists (pages P parent 0 (pageCount P C)).
  assert (getChildren P service fuel (kind_variable parent) w =
          match namedChildren parent kernel [] w with
          | Returned children w1 =>
              Returned (children ++ pages P parent 0 (pageCount P C)) (hostTurn w1)
          | failed => failed
          end) as Hrun.
  { simpl. rewrite (getVariables_run _ _ kernel) by done.
    destruct (namedChildren parent kernel [] w) as [children w1| |]; try done.
    unfold indexedChildren. fold C.
    destruct (Z.gtb_spec C 0); [|lia].
    rewrite bind_run, await_run, getIndexedChildren_ranges by done. reflexivity. }
  split; [by apply getIndexedChildren_ranges|].
  split; [exact Hrun|].
  split. { intros Hnamed. rewrite Hrun. unfold namedChildren. by rewrite Hnamed. }
  split.
  { intros children w1 Hnamed c Hc. apply namedChildren_returned in Hnamed.
    subst children. simpl in Hc. destruct (Var.hasNamedChildren parent);
      [|by apply elem_of_nil in Hc].
    by apply list_elem_of_fmap in Hc as (v & -> & _). }
  split; [apply pages_length|]. split; [done|].
  intros i Hi. eexists. split; [by apply pages_lookup|]. simpl.
  rewrite Z.add_0_l. split; [done|]. fold C. split.
  - intros Hnotlast. assert (Z.of_nat i * P + P ≤ (Z.of_nat (pageCount P C) - 1) * P) by nia.
    lia.
  - intros Hlast. assert (Z.of_nat i = Z.of_nat (pageCount P C) - 1) as Hi' by lia.
    rewrite Hi' in *. rewrite Z.min_r by lia.
    split; [|lia]. apply last_page_size; [done|]. split; [done|lia].
Qed.

(** *** C8 *)

(** The ranges of a collection that exceeds the page: the page at position
    [i] covers the block from [i * P] to [min (i * P + P) C]. *)
Lemma ranges_elem parent r :
  let C := Var.indexedChildrenCount parent in
  0 < P → P < C →
  r ∈ pages P parent 0 (pageCount P C) →
  ∃ start end_,
    r = rangeElement parent start end_ ∧
    0 ≤ start ∧ start < end_ ∧ end_ ≤ C ∧ end_ = Z.min (start + P) C.
Proof.
  intros C HP HC [i Hi]%list_elem_of_lookup.
  pose proof (lookup_lt_Some _ _ _ Hi) as Hlt. rewrite pages_length in Hlt.
  rewrite pages_lookup in Hi by done. injection Hi as <-.
  destruct (pageCount_bounds C HP ltac:(lia)) as (_ & Hlow & _).
  assert (Z.of_nat i * P ≤ (Z.of_nat (pageCount P C) - 1) * P) by nia.
  eexists _, _. split; [reflexivity|]. fold C. lia.
Qed.

(** C8. Every element of the range-splitting branch stands for a block from
    [start] to [end_] (with [0 <= start < end_ <= C], [end_] being
    [start + P] cut at [C]) and has: [indexStart = start],
    [indexedChildrenCount = end_ - start], [hasNamedChildren = false], the
    empty string as value, the name ["[start..end_-1]"], and as identifier
    the parent's identifier followed by the decimal [start]; it has no type
    and keeps the parent's provider handle and notebook. *)
Theorem range_element_shape (fuel : nat) (parent : Var.t)
    (kernel : INotebookKernel) (w : World) :
  let C := Var.indexedChildrenCount parent in
  0 < P → P < C → (pageCount P C < fuel)%nat →
  ∃ ranges : list Var.t,
    getIndexedChildren P fuel parent kernel w = Returned ranges w ∧
    ranges ≠ [] ∧
    ∀ r, r ∈ ranges →
      ∃ start end_,
        0 ≤ start ∧ start < end_ ∧ end_ ≤ C ∧ end_ = Z.min (start + P) C ∧
        Var.indexStart r = Some start ∧
        Var.indexedChildrenCount r = end_ - start ∧
        Var.hasNamedChildren r = false ∧
        Var.value r = "" ∧
        Var.name r = "[" +:+ pretty start +:+ ".." +:+ pretty (end_ - 1) +:+ "]" ∧
        Var.id r = Var.id parent +:+ pretty start ∧
        Var.type r = None ∧
        Var.extHostId r = Var.extHostId parent ∧
        Var.notebook r = Var.notebook parent.
Proof.
  intros C HP HC Hfuel. exists (pages P parent 0 (pageCount P C)).
  split; [by apply getIndexedChildren_ranges|]. split.
  - destruct (pageCount_bounds C HP ltac:(lia)) as (Hpos & _).
    destruct (pageCount P C); [lia|done].
  - intros r Hr. apply ranges_elem in Hr as (start & end_ & -> & ? & ? & ? & ?); [|done..].
    exists start, end_. by repeat split.
Qed.

(** *** C10 *)

(** C10. Every range element of a collection that exceeds the page counts
    between 1 and [P] children and keeps the parent's provider handle.
    Hence [hasChildren] holds for it, and expanding it, on any fuel, with any
    kernel and in any world, issues the indexed query at its offset and then
    only pulls (at most [P] times): the run never diverges, and what it
    returns are wrapped provider results, none of which is a range element. *)
Theorem range_element_expands_directly (fuel : nat) (parent : Var.t)
    (kernel : INotebookKernel) (w : World) :
  let C := Var.indexedChildrenCount parent in
  0 < P → P < C → (pageCount P C < fuel)%nat →
  ∃ ranges : list Var.t,
    getIndexedChildren P fuel parent kernel w = Returned ranges w ∧
    ∀ r, r ∈ ranges →
      0 < Var.indexedChildrenCount r ≤ P ∧
      Var.extHostId r = Var.extHostId parent ∧
      hasChildren (kind_variable r) = true ∧
      (∃ start,
         Var.indexStart r = Some start ∧
         ∀ fuel' kernel' w1,
           ∃ w2 (n : nat),
             outcome_world (getIndexedChildren P fuel' r kernel' w1) = Some w2 ∧
             log w2 =
               log w1 ++
               Asked {| q_parentId := Some (Var.extHostId parent);
                        q_kind := indexed;
                        q_start := start;
                        q_token := cancellationTokenSource w1 |}
               :: replicate n Pulled ∧
             Z.of_nat n ≤ P) ∧
      (∀ fuel' kernel' w1 children w2,
         getIndexedChildren P fuel' r kernel' w1 = Returned children w2 →
         ∀ c, c ∈ children →
           Var.indexStart c = None ∧
           ∃ v, c = createVariableElement v (Var.notebook parent)).
Proof.
  intros C HP HC Hfuel. exists (pages P parent 0 (pageCount P C)).
  split; [by apply getIndexedChildren_ranges|].
  intros r Hr. apply ranges_elem in Hr as (start & end_ & -> & ? & ? & ? & ?); [|done..].
  assert (0 < Var.indexedChildrenCount (rangeElement parent start end_) ≤ P)
    as Hcount by (simpl; lia).
  split; [done|]. split; [done|]. split.
  { simpl. apply Z.ltb_lt. lia. }
  split.
  - exists start. split; [done|]. intros fuel' kernel' w1.
    destruct (getIndexedChildren_query_log fuel' _ kernel' w1 Hcount)
      as (w2 & n & Hw2 & Hlog & _ & Hn).
    by exists w2, n.
  - intros fuel' kernel' w1 children w2 Hrun c Hc.
    apply getIndexedChildren_query_returned in Hrun as (k & -> & _); [|done].
    apply list_elem_of_fmap in Hc as (v & -> & _). split; [done|by exists v].
Qed.

(** *** C2 *)

(** C2, as amended.  A variable with [0 < indexedChildrenCount <= P], a
    kernel with a variable provider being selected: [getChildren] first runs
    the named part, then the indexed part, and returns the nodes of the one
    followed by the nodes of the other.  The indexed part, in whatever world
    it starts: asks the provider once, in indexed mode, at the variable's
    [indexStart] (0 when absent) and under the token current then, and pulls
    the sequence it got at most [P] times, whatever its length; what it
    returns wraps a prefix of that sequence, element by element and in
    order, of at most [P] elements; and it does return the first [P]
    elements when the provider is well behaved and the host stays out. *)
Theorem getChildren_direct_query (fuel : nat) (parent : Var.t)
    (kernel : INotebookKernel) (w : World) :
  let C := Var.indexedChildrenCount parent in
  let wrap := λ v, createVariableElement v (Var.notebook parent) in
  selected service (Var.notebook parent) = Some kernel →
  hasVariableProvider kernel = true →
  0 < C ≤ P →
  getChildren P service fuel (kind_variable parent) w =
    match namedChildren parent kernel [] w with
    | Returned children w1 =>
        match getIndexedChildren P fuel parent kernel w1 with
        | Returned childNodes w2 => Returned (children ++ childNodes) (hostTurn w2)
        | failed => failed
        end
    | failed => failed
    end ∧
  ∀ w1,
    let q := {| q_parentId := Some (Var.extHostId parent);
                q_kind := indexed;
                q_start := default 0 (Var.indexStart parent);
                q_token := cancellationTokenSource w1 |} in
    let variables :=
      provideVariables kernel (uri (Var.notebook parent)) (Some (Var.extHostId parent))
        indexed (default 0 (Var.indexStart parent)) (cancellationTokenSource w1) in
    (∃ w2 (n : nat),
       outcome_world (getIndexedChildren P fuel parent kernel w1) = Some w2 ∧
       log w2 = log w1 ++ Asked q :: replicate n Pulled ∧
       Z.of_nat n ≤ P) ∧
    (∀ childNodes w2,
       getIndexedChildren P fuel parent kernel w1 = Returned childNodes w2 →
       Z.of_nat (length childNodes) ≤ P ∧
       ∃ k : nat, childNodes = wrap <$> take k (items variables)) ∧
    (quiet w1 → wellBehaved kernel →
     ∃ w2, getIndexedChildren P fuel parent kernel w1 =
           Returned (wrap <$> take (Z.to_nat P) (items variables)) w2).
Proof.
  intros C wrap Hsel Hcap HC. split.
  - simpl. rewrite (getVariables_run _ _ kernel) by done.
    destruct (namedChildren parent kernel [] w) as [children w1| |]; try done.
    unfold indexedChildren. fold C. destruct (Z.gtb_spec C 0); [|lia].
    rewrite bind_run, await_run.
    by destruct (getIndexedChildren P fuel parent kernel w1).
  - intros w1 q variables. split; [|split].
    + destruct (getIndexedChildren_query_log fuel parent kernel w1 HC)
        as (w2 & n & Hw2 & Hlog & _ & Hn).
      by exists w2, n.
    + intros childNodes w2 Hrun.
      apply getIndexedChildren_query_returned in Hrun as (k & -> & Hk); [|done].
      split; [|by exists k]. rewrite length_fmap, length_take. lia.
    + intros Hq Hwb. eexists.
      apply getIndexedChildren_query_idle;
        [done|apply idle_nil, Hq|by apply quiet_unrevoked|left; apply Hwb].
Qed.

(** *** C4 *)

(** C4. A variable with named and with indexed children, a kernel with a
    variable provider being selected: whatever [getChildren] returns is the
    named children, in the order of the provider's sequence, followed by the
    indexed part; the indexed part is the list of ranges, whose offsets
    increase strictly along the list, when the count exceeds the page, and
    else a prefix of the provider's indexed sequence, in its order.  And
    [getChildren] does return when the provider is well behaved and the host
    stays out. *)
Theorem named_children_first (fuel : nat) (parent : Var.t)
    (kernel : INotebookKernel) (w : World) :
  let C := Var.indexedChildrenCount parent in
  let wrap := λ v, createVariableElement v (Var.notebook parent) in
  selected service (Var.notebook parent) = Some kernel →
  hasVariableProvider kernel = true →
  Var.hasNamedChildren parent = true → 0 < C →
  0 < P → (pageCount P C < fuel)%nat →
  (∀ children w',
     getChildren P service fuel (kind_variable parent) w = Returned children w' →
     ∃ indexedNodes,
       children =
         (wrap <$> items (answer kernel (Var.notebook parent) (namedQuery parent w)))
         ++ indexedNodes ∧
       (P < C →
        indexedNodes = pages P parent 0 (pageCount P C) ∧
        ∀ (i j : nat) r r',
          (i < j)%nat → indexedNodes !! i = Some r → indexedNodes !! j = Some r' →
          ∃ start start', Var.indexStart r = Some start ∧
                          Var.indexStart r' = Some start' ∧ start < start') ∧
       (C ≤ P →
        ∃ w1 (k : nat),
          indexedNodes =
            wrap <$> take k (items (answer kernel (Var.notebook parent)
                                      (indexedQuery parent w1))))) ∧
  (quiet w → wellBehaved kernel →
   ∃ children w', getChildren P service fuel (kind_variable parent) w = Returned children w').
Proof.
  intros C wrap Hsel Hcap Hnamed HC HP Hfuel. split.
  - intros children w'. simpl. rewrite (getVariables_run _ _ kernel) by done.
    destruct (namedChildren parent kernel [] w) as [namedNodes w1| |] eqn:Hrun; try done.
    apply namedChildren_returned in Hrun. rewrite Hnamed in Hrun. simpl in Hrun.
    subst namedNodes. unfold indexedChildren. fold C.
    destruct (Z.gtb_spec C 0); [|lia]. rewrite bind_run, await_run.
    destruct (getIndexedChildren P fuel parent kernel w1)
      as [indexedNodes w2| |] eqn:Hix; try done.
    intros [= <- _]. exists indexedNodes. split; [done|]. split.
    + intros Hbig. rewrite getIndexedChildren_ranges in Hix by done.
      injection Hix as <- _. split; [done|].
      intros i j r r' Hij Hi Hj.
      pose proof (lookup_lt_Some _ _ _ Hj) as Hlt. rewrite pages_length in Hlt.
      rewrite pages_lookup in Hi, Hj by lia.
      injection Hi as <-. injection Hj as <-. eexists _, _.
      split; [reflexivity|]. split; [reflexivity|]. nia.
    + intros Hsmall. apply getIndexedChildren_query_returned in Hix as (k & -> & _); [|lia].
      by exists w1, k.
  - intros Hq Hwb.
    destruct (getChildren_quiet fuel (kind_variable parent) w HP)
      as (children & evs & Hrun & _); [by intros ? [= <-]| |done|by eauto].
    simpl. intros k. rewrite Hsel. by intros [= <-].
Qed.

(** *** C6 *)

(** C6. [cancel()] revokes the handle that was current and installs a
    handle no earlier source owns, which is live; a handle revoked before
    stays revoked.  A [getChildren] issued in the world [cancel()] leaves,
    for the scope or for a variable, returns normally when the provider is
    well behaved (it may abandon a query whose token it finds revoked) and
    the host makes no further call; every query it issues carries the new
    handle, which is still live when the fetch returns. *)
Theorem cancel_then_getChildren (fuel : nat) (element : Element) (w : World) :
  (cancellationTokenSource w < length (sources w))%nat →
  0 < P →
  (∀ parent, element = kind_variable parent →
             (pageCount P (Var.indexedChildrenCount parent) < fuel)%nat) →
  (∀ kernel, selected service (Element_notebook element) = Some kernel →
             wellBehaved kernel) →
  schedule w = [] →
  revoked (cancel w) (cancellationTokenSource w) = true ∧
  cancellationTokenSource (cancel w) = length (sources w) ∧
  sources (cancel w) !! cancellationTokenSource (cancel w) = Some liveSource ∧
  (∀ t, revoked w t = true → revoked (cancel w) t = true) ∧
  ∃ children evs w',
    getChildren P service fuel element (cancel w) = Returned children w' ∧
    log w' = log w ++ evs ∧
    (∀ q, Asked q ∈ evs → q_token q = cancellationTokenSource (cancel w)) ∧
    cancellationTokenSource w' = cancellationTokenSource (cancel w) ∧
    revoked w' (cancellationTokenSource (cancel w)) = false.
Proof.
  intros Hwf HP Hfuel Hwb Hsched.
  split; [by apply cancel_revokes_current|].
  split; [apply cancel_token|].
  split; [apply cancel_installs_live|].
  split; [apply cancel_keeps_revoked|].
  destruct (getChildren_quiet fuel element (cancel w) HP Hfuel Hwb)
    as (children & evs & Hrun & Hevs).
  { split; [by rewrite cancel_schedule|apply cancel_current_live]. }
  exists children, evs, (advance 0 evs (cancel w)).
  split; [done|]. split; [done|]. split; [done|].
  split; [done|]. rewrite revoked_advance. apply cancel_current_live.
Qed.

(** *** C7 *)

Lemma getRootVariables_returned notebook w children w' :
  getRootVariables service notebook w = Returned children w' →
  ∃ variables : list VR.t,
    children = (λ v, createVariableElement v notebook) <$> variables.
Proof.
  unfold getRootVariables.
  destruct (selected service notebook) as [kernel|]; [|intros [= <- _]; by exists []].
  destruct (hasVariableProvider kernel); [|intros [= <- _]; by exists []].
  rewrite bind_run. unfold token at 1. rewrite bind_run.
  unfold callProvideVariables at 1. rewrite bind_run.
  unfold emit at 1, mret, M_ret, ret at 1. rewrite await_run. unfold toPromise.
  destruct (toPromise_from _ _ _ _ _) as [l w1| |] eqn:Hrun; try done.
  apply toPromise_from_returned in Hrun. simpl in Hrun. subst l.
  intros [= <- _]. by eexists.
Qed.

(** The world in which the host has just called [cancel()] at a suspension. *)
Lemma hostTurn_cancel w later :
  schedule w = CallCancel :: later →
  hostTurn w = cancel {| sources := sources w;
                         cancellationTokenSource := cancellationTokenSource w;
                         log := log w;
                         schedule := later |}.
Proof. unfold hostTurn. by intros ->. Qed.

(** C7, as amended.  A variable with named children and with
    [0 < indexedChildrenCount <= P], a kernel with a variable provider being
    selected.  The named query carries the token that is current when the
    fetch begins.  When the named part has returned, leaving the world [w1],
    the indexed query carries the token current in [w1], whatever happened
    to the token meanwhile.  In particular, when the host calls [cancel()]
    at the suspension between the two (after the named sequence has been
    drained): the named query has carried the old handle, which that call
    revokes; the indexed query carries the new handle, which is live and
    stays so; and with a well-behaved provider, even one that abandons a
    query whose token it finds revoked, the fetch returns normally. *)
Theorem query_carries_token_at_issue (fuel : nat) (parent : Var.t)
    (kernel : INotebookKernel) (w : World) :
  let C := Var.indexedChildrenCount parent in
  let namedAsk := λ tok,
    Asked {| q_parentId := Some (Var.extHostId parent); q_kind := named;
             q_start := 0; q_token := tok |} in
  let indexedAsk := λ tok,
    Asked {| q_parentId := Some (Var.extHostId parent); q_kind := indexed;
             q_start := default 0 (Var.indexStart parent); q_token := tok |} in
  selected service (Var.notebook parent) = Some kernel →
  hasVariableProvider kernel = true →
  Var.hasNamedChildren parent = true → 0 < C ≤ P →
  (∃ w1 (n : nat),
     outcome_world (namedChildren parent kernel [] w) = Some w1 ∧
     log w1 = log w ++ namedAsk (cancellationTokenSource w) :: replicate n Pulled) ∧
  (∀ namedNodes w1,
     namedChildren parent kernel [] w = Returned namedNodes w1 →
     ∃ w2 (n : nat),
       outcome_world (getChildren P service fuel (kind_variable parent) w) = Some w2 ∧
       log w2 = log w1 ++ indexedAsk (cancellationTokenSource w1) :: replicate n Pulled) ∧
  ((cancellationTokenSource w < length (sources w))%nat →
   revoked w (cancellationTokenSource w) = false →
   wellBehaved kernel →
   schedule w =
     replicate (S (length (items (answer kernel (Var.notebook parent)
                                    (namedQuery parent w))))) Idle
     ++ [CallCancel] →
   ∃ children w2 (n m : nat),
     getChildren P service fuel (kind_variable parent) w = Returned children w2 ∧
     log w2 =
       log w ++ namedAsk (cancellationTokenSource w) :: replicate n Pulled
             ++ indexedAsk (length (sources w)) :: replicate m Pulled ∧
     length (sources w) ≠ cancellationTokenSource w ∧
     revoked w2 (cancellationTokenSource w) = true ∧
     revoked w2 (length (sources w)) = false).
Proof.
  intros C namedAsk indexedAsk Hsel Hcap Hnamed HC.
  assert (getChildren P service fuel (kind_variable parent) w =
          match namedChildren parent kernel [] w with
          | Returned namedNodes w1 =>
              match getIndexedChildren P fuel parent kernel w1 with
              | Returned childNodes w2 => Returned (namedNodes ++ childNodes) (hostTurn w2)
              | failed => failed
              end
          | failed => failed
          end) as Hrun.
  { simpl. rewrite (getVariables_run _ _ kernel) by done.
    destruct (namedChildren parent kernel [] w) as [children w1| |]; try done.
    unfold indexedChildren. fold C. destruct (Z.gtb_spec C 0); [|lia].
    rewrite bind_run, await_run.
    by destruct (getIndexedChildren P fuel parent kernel w1). }
  split; [|split].
  - by apply namedChildren_log.
  - intros namedNodes w1 Hnamed_run. rewrite Hrun, Hnamed_run.
    destruct (getIndexedChildren_query_log fuel parent kernel w1 HC)
      as (w2 & n & Hw2 & Hlog & _).
    destruct (getIndexedChildren P fuel parent kernel w1) as [childNodes w2'|e w2'|];
      simpl in Hw2; [| |done]; injection Hw2 as ->.
    + exists (hostTurn w2), n. split; [done|]. by rewrite log_hostTurn.
    + by exists w2, n.
  - intros Hwf Hlive Hwb Hsched.
    set (variables := answer kernel (Var.notebook parent) (namedQuery parent w)) in *.
    set (n := S (length (items variables))) in *.
    assert (idle n w) as Hidle.
    { unfold idle. rewrite Hsched, take_app_length' by by rewrite length_replicate.
      by apply Forall_replicate. }
    assert (unrevoked w (watches variables)) as Hun.
    { intros t Ht. apply Hwb in Ht. by rewrite Ht. }
    rewrite Hrun, (namedChildren_idle parent kernel [] w Hnamed Hidle Hun) by apply Hwb.
    fold variables n.
    rewrite (hostTurn_cancel _ []);
      [|simpl; rewrite Hsched; apply drop_app_length'; by rewrite length_replicate].
    cbn [sources cancellationTokenSource log schedule advance].
    set (w0 := {| sources := sources w;
                  cancellationTokenSource := cancellationTokenSource w;
                  log := log w ++ Asked (namedQuery parent w) :: replicate n Pulled;
                  schedule := [] |}).
    assert (quiet (cancel w0)) as Hq by (split; [done|apply cancel_current_live]).
    rewrite getIndexedChildren_query_idle;
      [|done|apply idle_nil, Hq|by apply quiet_unrevoked|left; apply Hwb].
    rewrite hostTurn_nil by apply quiet_advance, Hq.
    eexists _, _, n, _. split; [reflexivity|].
    rewrite revoked_advance, revoked_advance.
    split; [|split; [|split]].
    + unfold advance. cbn [log]. rewrite log_cancel. unfold w0. cbn [log].
      rewrite <- app_assoc. unfold namedAsk, indexedAsk, namedQuery, indexedQuery.
      by rewrite cancel_token.
    + lia.
    + by apply (cancel_revokes_current w0).
    + change (length (sources w)) with (length (sources w0)).
      rewrite <- (cancel_token w0). apply cancel_current_live.
Qed.

(** *** C9 *)

Lemma getIndexedChildren_returned fuel parent kernel w children w' :
  getIndexedChildren P fuel parent kernel w = Returned children w' →
  ∀ node, node ∈ children →
    isRange P (kind_variable parent) node ∨ isWrapped (kind_variable parent) node.
Proof.
  intros Hrun node Hnode.
  destruct (Z_lt_le_dec P (Var.indexedChildrenCount parent)) as [Hbig|Hsmall].
  - left. unfold getIndexedChildren in Hrun.
    destruct (Z.gtb_spec (Var.indexedChildrenCount parent) P); [|lia].
    destruct (rangeLoop _ _ _ _ _) as [l|] eqn:Hloop; [|done].
    injection Hrun as -> _. apply rangeLoop_Some in Hloop as (k & -> & Hup & Hlow).
    apply pages_elem in Hnode as (i & Hi & ->).
    pose proof (Hlow 0%nat ltac:(lia)) as Hfirst.
    pose proof (Hlow i Hi) as Hthis.
    assert (0 < P) as HP by nia.
    assert (0 ≤ Z.of_nat i * P) by nia.
    eexists parent, _, _. repeat split; [done|lia..].
  - right. destruct (Z_lt_le_dec 0 (Var.indexedChildrenCount parent)) as [Hpos|Hzero].
    + apply getIndexedChildren_query_returned in Hrun as (k & -> & _); [|done].
      apply list_elem_of_fmap in Hnode as (v & -> & _). by exists v.
    + unfold getIndexedChildren in Hrun.
      destruct (Z.gtb_spec (Var.indexedChildrenCount parent) P); [lia|].
      destruct (Z.gtb_spec (Var.indexedChildrenCount parent) 0); [lia|].
      injection Hrun as <- _. by apply elem_of_nil in Hnode.
Qed.

(** C9. Every node [getChildren] returns is either a range element or a
    wrapped provider result, and it carries [indexStart] exactly when it is a
    range element; a wrapped provider result never carries it. *)
Theorem indexStart_marks_ranges (fuel : nat) (element : Element) (w : World)
    (children : list Var.t) (w' : World) (node : Var.t) :
  getChildren P service fuel element w = Returned children w' →
  node ∈ children →
  (isRange P element node ∨ isWrapped element node) ∧
  (is_Some (Var.indexStart node) ↔ isRange P element node) ∧
  (isWrapped element node → Var.indexStart node = None).
Proof.
  intros Hrun Hnode.
  assert (isRange P element node ∨ isWrapped element node) as Hkind.
  { destruct element as [scope|parent]; simpl in Hrun.
    - right. apply getRootVariables_returned in Hrun as (variables & ->).
      apply list_elem_of_fmap in Hnode as (v & -> & _). by exists v.
    - unfold getVariables in Hrun.
      destruct (selected service (Var.notebook parent)) as [kernel|];
        [|injection Hrun as <- _; by apply elem_of_nil in Hnode].
      destruct (hasVariableProvider kernel);
        [|injection Hrun as <- _; by apply elem_of_nil in Hnode].
      rewrite bind_run in Hrun.
      destruct (namedChildren parent kernel [] w) as [namedNodes w1| |] eqn:Hn; try done.
      apply namedChildren_returned in Hn. simpl in Hn.
      rewrite bind_run in Hrun. unfold indexedChildren in Hrun.
      destruct (Var.indexedChildrenCount parent >? 0).
      + rewrite bind_run, await_run in Hrun.
        destruct (getIndexedChildren P fuel parent kernel w1)
          as [indexedNodes w2| |] eqn:Hix; try done.
        injection Hrun as <- _. apply elem_of_app in Hnode as [Hnode|Hnode].
        * right. subst namedNodes. destruct (Var.hasNamedChildren parent);
            [|by apply elem_of_nil in Hnode].
          apply list_elem_of_fmap in Hnode as (v & -> & _). by exists v.
        * by eapply getIndexedChildren_returned.
      + injection Hrun as <- _. right. subst namedNodes.
        destruct (Var.hasNamedChildren parent); [|by apply elem_of_nil in Hnode].
        apply list_elem_of_fmap in Hnode as (v & -> & _). by exists v. }
  split; [done|].
  assert (isWrapped element node → Var.indexStart node = None) as Hwrapped
    by (by intros (v & ->)).
  split; [split|done].
  - intros [start Hstart]. destruct Hkind as [|Hw]; [done|].
    apply Hwrapped in Hw. congruence.
  - intros (parent & start & end_ & _ & _ & _ & _ & _ & _ & ->). by eexists.
Qed.

End Claims.

(** ** Instances *)

Lemma example_kernel_wellBehaved : wellBehaved example_kernel.
Proof. intros ? ? ? ? tok. split; [reflexivity|]. by intros t [= <-]. Qed.

Lemma new_NotebookVariableDataSource_quiet : quiet (new_NotebookVariableDataSource []).
Proof. by split. Qed.

(** An instance: the array of 250 elements of the example, with pages of
    100, is split into three ranges. *)
Lemma getChildren_range_split_example :
  ∃ ranges : list Var.t,
    getChildren 100 example_service 4 (kind_variable example_arr_element)
      (new_NotebookVariableDataSource []) =
    Returned ranges (new_NotebookVariableDataSource []) ∧
    length ranges = 3%nat.
Proof.
  destruct (getChildren_range_split 100 example_service 4 example_arr_element example_kernel
              (new_NotebookVariableDataSource []))
    as (ranges & _ & _ & Hrun & _ & Hlen & _);
    [lia | simpl; lia | reflexivity | reflexivity | vm_compute; lia |].
  exists ranges. split; [exact (Hrun eq_refl) | exact Hlen].
Defined.

(** An instance: the second range of the example array. *)
Lemma range_element_shape_example :
  ∃ ranges : list Var.t,
    getIndexedChildren 100 4 example_arr_element example_kernel
      (new_NotebookVariableDataSource []) =
    Returned ranges (new_NotebookVariableDataSource []) ∧
    ∃ r, ranges !! 1%nat = Some r ∧
         Var.name r = "[100..199]" ∧ Var.id r = "8100".
Proof.
  destruct (range_element_shape 100 4 example_arr_element example_kernel
              (new_NotebookVariableDataSource []))
    as (ranges & Hrun & _ & _); [lia | simpl; lia | vm_compute; lia |].
  exists ranges. split; [exact Hrun|].
  assert (Returned ranges (new_NotebookVariableDataSource []) =
          Returned (pages 100 example_arr_element 0 3) (new_NotebookVariableDataSource []))
    as [= ->] by (rewrite <- Hrun; reflexivity).
  eexists. split; [reflexivity|]. split; reflexivity.
Defined.

(** An instance: every range of the example array can be expanded. *)
Lemma range_element_expands_directly_example :
  ∃ ranges : list Var.t,
    getIndexedChildren 100 4 example_arr_element example_kernel
      (new_NotebookVariableDataSource []) =
    Returned ranges (new_NotebookVariableDataSource []) ∧
    ∀ r, r ∈ ranges → hasChildren (kind_variable r) = true.
Proof.
  destruct (range_element_expands_directly 100 4 example_arr_element example_kernel
              (new_NotebookVariableDataSource []))
    as (ranges & Hrun & Hall); [lia | simpl; lia | vm_compute; lia |].
  exists ranges. split; [exact Hrun|].
  intros r Hr. exact (proj1 (proj2 (proj2 (Hall r Hr)))).
Defined.

(** An instance of C5: no kernel is selected. *)
Lemma getChildren_without_provider_example :
  getChildren 100 no_kernel_service 0 (kind_variable example_arr_element)
    (new_NotebookVariableDataSource []) =
  Returned [] (new_NotebookVariableDataSource []).
Proof.
  apply (getChildren_without_provider 100 no_kernel_service 0
           (kind_variable example_arr_element)).
  left. reflexivity.
Defined.

(** C2, counterexample.  With pages of 2, the object of the example has
    [0 < indexedChildrenCount = 2 <= 2] and three named children:
    [getChildren] returns five nodes, three more than the page, and pulls
    the named sequence four times. *)
Lemma getChildren_exceeds_page :
  0 < Var.indexedChildrenCount example_obj_element ≤ 2 ∧
  ∃ children w',
    getChildren 2 example_service 0 (kind_variable example_obj_element)
      (new_NotebookVariableDataSource []) = Returned children w' ∧
    length children = 5%nat ∧
    ¬ Z.of_nat (length children) ≤ 2 ∧
    log w' =
      [Asked {| q_parentId := Some 9; q_kind := named; q_start := 0; q_token := 0%nat |};
       Pulled; Pulled; Pulled; Pulled;
       Asked {| q_parentId := Some 9; q_kind := indexed; q_start := 0; q_token := 0%nat |};
       Pulled; Pulled].
Proof.
  split; [simpl; lia|]. eexists _, _. split; [vm_compute; reflexivity|].
  split; [reflexivity|]. split; [simpl; lia|reflexivity].
Qed.

(** An instance of C2 as amended: the indexed part of the object, with pages
    of 2, wraps the first two of the three elements the provider yields. *)
Lemma getChildren_direct_query_example :
  ∃ w2,
    getIndexedChildren 2 0 example_obj_element example_kernel
      (new_NotebookVariableDataSource []) =
    Returned
      [createVariableElement (example_item 0) example_notebook;
       createVariableElement (example_item 1) example_notebook] w2.
Proof.
  destruct (getChildren_direct_query 2 example_service 0 example_obj_element
              example_kernel (new_NotebookVariableDataSource []))
    as [_ Hindexed]; [reflexivity | reflexivity | simpl; lia |].
  destruct (Hindexed (new_NotebookVariableDataSource [])) as (_ & _ & Hrun).
  exact (Hrun new_NotebookVariableDataSource_quiet example_kernel_wellBehaved).
Defined.

(** An instance of C4: the object of the example, with pages of 2. *)
Lemma named_children_first_example :
  ∃ children w',
    getChildren 2 example_service 2 (kind_variable example_obj_element)
      (new_NotebookVariableDataSource []) = Returned children w'.
Proof.
  destruct (named_children_first 2 example_service 2 example_obj_element
              example_kernel (new_NotebookVariableDataSource []))
    as [_ Hrun];
    [reflexivity | reflexivity | reflexivity | simpl; lia | lia | vm_compute; lia |].
  exact (Hrun new_NotebookVariableDataSource_quiet example_kernel_wellBehaved).
Defined.

(** An instance of C6: [cancel()] on a fresh data source, then a fetch of
    the children of the object. *)
Lemma cancel_then_getChildren_example :
  revoked (cancel (new_NotebookVariableDataSource [])) 0 = true ∧
  cancellationTokenSource (cancel (new_NotebookVariableDataSource [])) = 1%nat ∧
  ∃ children w',
    getChildren 2 example_service 2 (kind_variable example_obj_element)
      (cancel (new_NotebookVariableDataSource [])) = Returned children w' ∧
    revoked w' 1 = false.
Proof.
  destruct (cancel_then_getChildren 2 example_service 2
              (kind_variable example_obj_element) (new_NotebookVariableDataSource []))
    as (Hold & Hnew & _ & _ & children & evs & w' & Hrun & _ & _ & _ & Hlive).
  - simpl. lia.
  - lia.
  - intros parent [= <-]. vm_compute. lia.
  - intros kernel [= <-]. exact example_kernel_wellBehaved.
  - reflexivity.
  - split; [exact Hold|]. split; [exact Hnew|]. by exists children, w'.
Defined.

(** C7, counterexample.  With pages of 2, the host calls [cancel()] at the
    suspension between the named query and the indexed query of one fetch of
    the object's children.  The query already issued carried the handle 0,
    and that is the handle the call revokes: the provider is signalled to
    abandon the issued query.  The query not yet issued is issued under the
    new handle 1, which is live: it is not signalled, and the fetch returns
    all five children although the provider honours cancellation.  So it is
    not the case that the call leaves the issued query alone and reaches the
    query not yet issued.  When the call comes while the named query is in
    flight, the provider abandons it and the fetch is rejected. *)
Lemma cancel_between_queries_revokes_issued :
  (∃ children w',
     getChildren 2 example_service 0 (kind_variable example_obj_element)
       (new_NotebookVariableDataSource [Idle; Idle; Idle; Idle; CallCancel]) =
     Returned children w' ∧
     length children = 5%nat ∧
     log w' =
       [Asked (namedQuery example_obj_element (new_NotebookVariableDataSource []));
        Pulled; Pulled; Pulled; Pulled;
        Asked (indexedQuery example_obj_element
                 (cancel (new_NotebookVariableDataSource [])));
        Pulled; Pulled] ∧
     signalled w' (namedQuery example_obj_element (new_NotebookVariableDataSource []))
       = true ∧
     signalled w' (indexedQuery example_obj_element
                     (cancel (new_NotebookVariableDataSource [])))
       = false ∧
     ¬ (signalled w'
          (namedQuery example_obj_element (new_NotebookVariableDataSource [])) = false ∧
        signalled w'
          (indexedQuery example_obj_element
             (cancel (new_NotebookVariableDataSource []))) = true)) ∧
  (∃ w',
     getChildren 2 example_service 0 (kind_variable example_obj_element)
       (new_NotebookVariableDataSource [Idle; CallCancel]) =
     Rejected Cancelled w' ∧
     log w' =
       [Asked (namedQuery example_obj_element (new_NotebookVariableDataSource []));
        Pulled; Pulled]).
Proof.
  split.
  - eexists _, _. split; [vm_compute; reflexivity|].
    repeat split; try reflexivity. by intros [? _].
  - eexists. split; [vm_compute; reflexivity|]. reflexivity.
Qed.

(** An instance of C7 as amended, on the same run. *)
Lemma query_carries_token_at_issue_example :
  ∃ children w2,
    getChildren 2 example_service 0 (kind_variable example_obj_element)
      (new_NotebookVariableDataSource [Idle; Idle; Idle; Idle; CallCancel]) =
    Returned children w2 ∧
    revoked w2 0 = true ∧ revoked w2 1 = false.
Proof.
  destruct (query_carries_token_at_issue 2 example_service 0 example_obj_element
              example_kernel
              (new_NotebookVariableDataSource [Idle; Idle; Idle; Idle; CallCancel]))
    as (_ & _ & Hcancel);
    [reflexivity | reflexivity | reflexivity | simpl; lia |].
  destruct Hcancel as (children & w2 & n & m & Hrun & _ & _ & Hold & Hnew).
  - simpl. lia.
  - reflexivity.
  - exact example_kernel_wellBehaved.
  - reflexivity.
  - by exists children, w2.
Defined.

(** An instance of C9: the second range of the example array. *)
Lemma indexStart_marks_ranges_example :
  is_Some (Var.indexStart (rangeElement example_arr_element 100 200)) ↔
  isRange 100 (kind_variable example_arr_element)
    (rangeElement example_arr_element 100 200).
Proof.
  apply (indexStart_marks_ranges 100 example_service 4
           (kind_variable example_arr_element) (new_NotebookVariableDataSource [])
           (pages 100 example_arr_element 0 3) (new_NotebookVariableDataSource [])).
  - reflexivity.
  - apply list_elem_of_lookup. exists 1%nat. reflexivity.
Defined.

(** * Further properties *)

(** ** Strings *)

Lemma append_cons x (a b : string) : String x a +:+ b = String x (a +:+ b).
Proof. reflexivity. Qed.

Lemma append_assoc' (a b c : string) : (a +:+ b) +:+ c = a +:+ (b +:+ c).
Proof. induction a as [|x a IH]; [done|]. by rewrite !append_cons, IH. Qed.

Lemma append_cancel_l (a b c : string) : a +:+ b = a +:+ c → b = c.
Proof.
  induction a as [|x a IH]; [done|]. rewrite !append_cons. intros [= H]. by apply IH.
Qed.

Lemma append_nonempty_ne (a b : string) : b ≠ "" → a +:+ b ≠ a.
Proof.
  intros Hb. induction a as [|x a IH]; [done|].
  rewrite append_cons. intros [= H]. by apply IH.
Qed.

(** The digits of [x] put before [s] are the digits of [x], then [s]. *)
Lemma pretty_N_go_app (x : N) : ∀ s, pretty_N_go x s = pretty_N_go x "" +:+ s.
Proof.
  induction (N.lt_wf_0 x) as [x _ IH]. intros s.
  destruct (decide (x = 0)%N) as [->|Hx]; [by rewrite !pretty_N_go_0|].
  rewrite (pretty_N_go_step x s), (pretty_N_go_step x "") by lia.
  rewrite (IH (x `div` 10)%N) by (apply N.div_lt; lia).
  rewrite (IH (x `div` 10)%N ltac:(apply N.div_lt; lia) (String _ "")).
  by rewrite append_assoc'.
Qed.

(** The decimal representation of ten times a positive number ends in 0. *)
Lemma pretty_times_ten (h : Z) : 0 < h → pretty (10 * h) = pretty h +:+ "0".
Proof.
  intros Hh. destruct h as [|p|p]; [lia| |lia].
  change (10 * Z.pos p) with (Z.pos (10 * p)).
  unfold pretty, pretty_Z, pretty_positive. unfold pretty, pretty_N.
  rewrite !decide_False by lia.
  rewrite (pretty_N_go_step (N.pos (10 * p))) by lia.
  replace (N.pos (10 * p) `div` 10)%N with (N.pos p)
    by (apply (N.div_unique _ 10 _ 0); lia).
  replace (N.pos (10 * p) `mod` 10)%N with 0%N
    by (apply (N.mod_unique _ 10 (N.pos p) 0); lia).
  apply pretty_N_go_app.
Qed.

Lemma pretty_nonempty (z : Z) : pretty z ≠ "".
Proof.
  intros H. assert (String.length (pretty z) = 0%nat) as Hlen by by rewrite H.
  destruct z as [|p|p]; [done| |done].
  unfold pretty, pretty_Z, pretty_positive in H. unfold pretty, pretty_N in H.
  rewrite decide_False in H by lia.
  rewrite pretty_N_go_step in H by lia.
  rewrite pretty_N_go_app in H.
  by destruct (pretty_N_go _ "").
Qed.

(** ** What a run does to the world *)

Lemma evolves_trans w1 w2 w3 : evolves w1 w2 → evolves w2 w3 → evolves w1 w3.
Proof.
  intros H12 H23.
  induction H23; [done|apply evolves_host; auto|apply evolves_record; auto].
Qed.

(** A computation whose every run only lets the host act and logs events. *)
Definition tame {A} (m : M A) : Prop :=
  ∀ w w', outcome_world (m w) = Some w' → evolves w w'.

Lemma tame_ret {A} (a : A) : tame (ret a).
Proof. intros w w' [= <-]. constructor. Qed.

Lemma tame_bind {A B} (m : M A) (k : A → M B) :
  tame m → (∀ a, tame (k a)) → tame (m ≫= k).
Proof.
  intros Hm Hk w w'. rewrite bind_run.
  destruct (m w) as [a w1|e w1|] eqn:Hrun; [| |done].
  - intros H. eapply evolves_trans; [|by eapply Hk]. apply Hm. by rewrite Hrun.
  - intros [= <-]. apply Hm. by rewrite Hrun.
Qed.

Lemma tame_suspend : tame suspend.
Proof. intros w w' [= <-]. repeat constructor. Qed.

Lemma tame_emit e : tame (emit e).
Proof. intros w w' [= <-]. repeat constructor. Qed.

Lemma tame_honour watched : tame (honour watched).
Proof.
  intros w w'. unfold honour. destruct watched as [t|]; [destruct (revoked w t)|];
    intros [= <-]; constructor.
Qed.

Lemma tame_token : tame token.
Proof. intros w w' [= <-]. constructor. Qed.

Lemma tame_reject {A} e : tame (@reject A e).
Proof. intros w w' [= <-]. constructor. Qed.

Lemma tame_pull watched : tame (pull watched).
Proof.
  unfold pull. apply tame_bind; [apply tame_suspend|intros _].
  apply tame_bind; [apply tame_emit|intros _; apply tame_honour].
Qed.

Lemma tame_await {A} (p : M A) : tame p → tame (await p).
Proof.
  intros Hp. unfold await. apply tame_bind; [done|intros a].
  apply tame_bind; [apply tame_suspend|intros _; apply tame_ret].
Qed.

Lemma tame_toPromise_from {A} watched fails (rest : list A) :
  ∀ collected, tame (toPromise_from watched fails rest collected).
Proof.
  induction rest as [|x rest IH]; intros collected; simpl;
    (apply tame_bind; [apply tame_pull|intros _]); [|apply IH].
  destruct fails; [apply tame_reject|apply tame_ret].
Qed.

Lemma tame_callProvideVariables kernel notebookUri parentId kind start tok :
  tame (callProvideVariables kernel notebookUri parentId kind start tok).
Proof.
  unfold callProvideVariables. apply tame_bind; [apply tame_emit|intros _; apply tame_ret].
Qed.

Lemma tame_diverge {A} : tame (@diverge A).
Proof. by intros w w'. Qed.

(** ** The handles along a run *)

Lemma oneLiveHandle_new host : oneLiveHandle (new_NotebookVariableDataSource host).
Proof.
  split; [done|]. intros [|t] s; simpl; [by intros [= <-]|].
  by rewrite lookup_nil.
Qed.

Lemma oneLiveHandle_cancel w : oneLiveHandle w → oneLiveHandle (cancel w).
Proof.
  intros [Hlast Hall]. split.
  - rewrite cancel_token. unfold cancel. simpl. rewrite length_app, !length_alter.
    simpl. lia.
  - intros t s. rewrite cancel_token.
    destruct (decide (t < length (sources w))%nat) as [Hlt|Hge].
    + rewrite cancel_sources by lia.
      rewrite (decide_False (P := t = length (sources w))) by lia.
      destruct (decide (t = cancellationTokenSource w)) as [->|Hne].
      * destruct (sources w !! cancellationTokenSource w); by intros [= <-].
      * intros Hs. apply Hall in Hs. by rewrite decide_False in Hs.
    + unfold cancel. simpl. rewrite lookup_app_r by (rewrite !length_alter; lia).
      rewrite !length_alter.
      destruct (t - length (sources w))%nat as [|n] eqn:Hn; simpl.
      * intros [= <-]. by rewrite decide_True by lia.
      * by rewrite lookup_nil.
Qed.

Lemma oneLiveHandle_hostTurn w : oneLiveHandle w → oneLiveHandle (hostTurn w).
Proof.
  intros Hw. unfold hostTurn. destruct (schedule w) as [|[] later]; [done..|].
  by apply oneLiveHandle_cancel.
Qed.

Lemma evolves_oneLiveHandle w w' : evolves w w' → oneLiveHandle w → oneLiveHandle w'.
Proof.
  induction 1 as [|w w' _ IH|w w' e _ IH]; intros Hw; [done| |by apply IH].
  by apply oneLiveHandle_hostTurn, IH.
Qed.

(** Without the host, a run leaves the handles as they are. *)
Lemma evolves_undisturbed w w' :
  evolves w w' → schedule w = [] →
  sources w' = sources w ∧
  cancellationTokenSource w' = cancellationTokenSource w ∧
  schedule w' = [].
Proof.
  induction 1 as [|w w' _ IH|w w' e _ IH]; intros Hs; [done| |by apply IH].
  destruct (IH Hs) as (? & ? & Hs'). by rewrite hostTurn_nil.
Qed.

(** A run only adds to the log. *)
Lemma evolves_log w w' : evolves w w' → log w `prefix_of` log w'.
Proof.
  induction 1 as [|w w' _ IH|w w' e _ IH]; [done|by rewrite log_hostTurn|].
  simpl. by apply prefix_app_r.
Qed.

Section Further.

Variable P : Z.
Variable service : INotebookKernelService.

Lemma tame_forAwait watched fails notebook :
  ∀ variables childNodes, tame (forAwait P watched fails variables notebook childNodes).
Proof.
  induction variables as [|v rest IH]; intros childNodes; simpl;
    (apply tame_bind; [apply tame_pull|intros _]).
  - destruct fails; [apply tame_reject|apply tame_ret].
  - destruct (_ >=? _); [apply tame_ret|apply IH].
Qed.

Lemma tame_getIndexedChildren fuel parent kernel :
  tame (getIndexedChildren P fuel parent kernel).
Proof.
  unfold getIndexedChildren. destruct (_ >? P).
  - destruct (rangeLoop _ _ _ _ _); [apply tame_ret|apply tame_diverge].
  - destruct (_ >? 0); [|apply tame_ret].
    apply tame_bind; [apply tame_token|intros tok].
    apply tame_bind; [apply tame_callProvideVariables|intros variables].
    apply tame_forAwait.
Qed.

Lemma tame_namedChildren parent kernel children :
  tame (namedChildren parent kernel children).
Proof.
  unfold namedChildren. destruct (Var.hasNamedChildren parent); [|apply tame_ret].
  apply tame_bind; [apply tame_token|intros tok].
  apply tame_bind; [apply tame_callProvideVariables|intros variables].
  apply tame_bind; [|intros; apply tame_ret].
  apply tame_await, tame_toPromise_from.
Qed.

Lemma tame_indexedChildren fuel parent kernel children :
  tame (indexedChildren P fuel parent kernel children).
Proof.
  unfold indexedChildren. destruct (_ >? 0); [|apply tame_ret].
  apply tame_bind; [|intros; apply tame_ret].
  apply tame_await, tame_getIndexedChildren.
Qed.

Lemma tame_getChildren fuel element : tame (getChildren P service fuel element).
Proof.
  destruct element as [scope|parent]; simpl.
  - unfold getRootVariables.
    destruct (selected service _) as [kernel|]; [|apply tame_ret].
    destruct (hasVariableProvider kernel); [|apply tame_ret].
    apply tame_bind; [apply tame_token|intros tok].
    apply tame_bind; [apply tame_callProvideVariables|intros variables].
    apply tame_await, tame_toPromise_from.
  - unfold getVariables.
    destruct (selected service _) as [kernel|]; [|apply tame_ret].
    destruct (hasVariableProvider kernel); [|apply tame_ret].
    apply tame_bind; [apply tame_namedChildren|intros children].
    apply tame_bind; [apply tame_indexedChildren|intros; apply tame_ret].
Qed.

(** *** X1 *)

(** X1. The data source always holds exactly one live handle.  This holds
    when it is constructed; [cancel()] keeps it; and it holds in the world
    any fetch leaves, finished or failed, whatever the provider answers and
    whenever the host calls [cancel()] meanwhile: the current source is the
    last one allocated, live and not disposed, and every other source is
    cancelled and disposed. *)
Theorem one_live_handle_invariant :
  (∀ host, oneLiveHandle (new_NotebookVariableDataSource host)) ∧
  (∀ w, oneLiveHandle w → oneLiveHandle (cancel w)) ∧
  (∀ fuel element w w',
     oneLiveHandle w →
     outcome_world (getChildren P service fuel element w) = Some w' →
     oneLiveHandle w').
Proof.
  split; [apply oneLiveHandle_new|]. split; [apply oneLiveHandle_cancel|].
  intros fuel element w w' Hw Hrun.
  eapply evolves_oneLiveHandle; [|done]. by eapply tame_getChildren.
Qed.

(** *** X2 *)

(** X2. A fetch never revokes, disposes or replaces a handle by itself:
    when the host makes no call while it runs, the world it leaves, finished
    or failed and whatever the provider answers, has the token sources and
    the current source it started with, and its log only grew. *)
Theorem getChildren_leaves_handles (fuel : nat) (element : Element) (w w' : World) :
  schedule w = [] →
  outcome_world (getChildren P service fuel element w) = Some w' →
  sources w' = sources w ∧
  cancellationTokenSource w' = cancellationTokenSource w ∧
  log w `prefix_of` log w'.
Proof.
  intros Hs Hrun. apply tame_getChildren in Hrun.
  destruct (evolves_undisturbed _ _ Hrun Hs) as (? & ? & _).
  split; [done|]. split; [done|]. by apply evolves_log.
Qed.

(** *** X3 *)

(** X3. A variable for which [hasChildren] is false costs nothing to
    expand: [getChildren] returns the empty list at once, whatever kernel is
    selected, without asking the provider and without being suspended. *)
Theorem getChildren_of_leaf (fuel : nat) (parent : Var.t) (w : World) :
  hasChildren (kind_variable parent) = false →
  getChildren P service fuel (kind_variable parent) w = Returned [] w.
Proof.
  simpl. intros [Hnamed Hcount]%orb_false_iff. apply Z.ltb_ge in Hcount.
  unfold getVariables, namedChildren, indexedChildren. rewrite Hnamed.
  destruct (Z.gtb_spec (Var.indexedChildrenCount parent) 0); [lia|].
  destruct (selected service _) as [kernel|]; [|done].
  by destruct (hasVariableProvider kernel).
Qed.

(** *** X4 *)

Lemma getRootVariables_run notebook kernel w :
  selected service notebook = Some kernel → hasVariableProvider kernel = true →
  getRootVariables service notebook w =
  let q := {| q_parentId := None; q_kind := named; q_start := 0;
              q_token := cancellationTokenSource w |} in
  match toPromise
          (map_async (λ v, createVariableElement v notebook) (answer kernel notebook q))
          (record (Asked q) w) with
  | Returned children w1 => Returned children (hostTurn w1)
  | failed => failed
  end.
Proof.
  intros Hsel Hcap. unfold getRootVariables. rewrite Hsel, Hcap.
  rewrite bind_run. unfold token at 1. rewrite bind_run.
  unfold callProvideVariables at 1. rewrite bind_run.
  unfold emit at 1, mret, M_ret, ret at 1. rewrite await_run. cbv zeta.
  by destruct (toPromise _ _).
Qed.

(** X4. The children of the scope, a kernel with a variable provider being
    selected.  Whatever the fuel, the page size, the host and the provider:
    the fetch ends, having asked the provider once, in named mode at offset 0
    for the notebook's root (no parent handle) under the current token, and
    having only pulled since.  What it returns is the whole sequence,
    wrapped element by element in order: the root level is not paged.  When
    the host stays idle and the token live, it returns that list after one
    pull per element and one more, unless the sequence fails at its end,
    which rejects the fetch. *)
Theorem getChildren_of_scope (fuel : nat) (scope : INotebookScope.t)
    (kernel : INotebookKernel) (w : World) :
  let notebook := INotebookScope.notebook scope in
  let q := {| q_parentId := None; q_kind := named; q_start := 0;
              q_token := cancellationTokenSource w |} in
  let variables :=
    provideVariables kernel (uri notebook) None named 0 (cancellationTokenSource w) in
  let wrap := λ v, createVariableElement v notebook in
  let n := S (length (items variables)) in
  selected service notebook = Some kernel →
  hasVariableProvider kernel = true →
  (∃ w' (m : nat),
     outcome_world (getChildren P service fuel (kind_root scope) w) = Some w' ∧
     log w' = log w ++ Asked q :: replicate m Pulled) ∧
  (∀ children w',
     getChildren P service fuel (kind_root scope) w = Returned children w' →
     children = wrap <$> items variables) ∧
  (idle n w → unrevoked w (watches variables) →
   getChildren P service fuel (kind_root scope) w =
   if throws variables
   then Rejected ProviderFailure (advance n (Asked q :: replicate n Pulled) w)
   else Returned (wrap <$> items variables)
          (hostTurn (advance n (Asked q :: replicate n Pulled) w))).
Proof.
  intros notebook q variables wrap n Hsel Hcap. simpl.
  rewrite (getRootVariables_run _ kernel) by done. cbv zeta. fold notebook q.
  change (answer kernel notebook q) with variables.
  unfold toPromise. simpl. split; [|split].
  - match goal with
    | |- context [toPromise_from ?a ?b ?c ?d ?e] =>
        destruct (toPromise_from_log a b c d e) as (w' & m & Hw' & Hlog);
        destruct (toPromise_from a b c d e) as [l w1|e1 w1|]
    end; simpl in Hw'; [| |done]; injection Hw' as ->.
    + exists (hostTurn w'), m. split; [done|].
      rewrite log_hostTurn, Hlog. simpl. by rewrite <- app_assoc.
    + exists w', m. split; [done|]. rewrite Hlog. simpl. by rewrite <- app_assoc.
  - intros children w'.
    destruct (toPromise_from _ _ _ _ _) as [l w1| |] eqn:Hrun; try done.
    apply toPromise_from_returned in Hrun. simpl in Hrun. by intros [= <- _].
  - intros Hidle Hlive. rewrite record_as_advance.
    apply (idle_split 0 n [Asked q]) in Hidle as [_ Hidle].
    rewrite toPromise_from_idle; rewrite ?length_fmap; [|done|done].
    cbv zeta. rewrite advance_advance. by destruct (throws variables).
Qed.

(** *** X5 *)

(** X5. The range-splitting loop relies on a positive page size: with
    [variablePageSize <= 0] and a positive count, [getIndexedChildren] does
    not end on any fuel, and neither does [getChildren] once the named part
    has returned. *)
Theorem nonpositive_page_diverges (fuel : nat) (parent : Var.t)
    (kernel : INotebookKernel) (w : World) :
  P ≤ 0 → 0 < Var.indexedChildrenCount parent →
  selected service (Var.notebook parent) = Some kernel →
  hasVariableProvider kernel = true →
  (∀ w1, getIndexedChildren P fuel parent kernel w1 = Diverged) ∧
  getChildren P service fuel (kind_variable parent) w =
    match namedChildren parent kernel [] w with
    | Returned _ _ => Diverged
    | failed => failed
    end.
Proof.
  intros HP HC Hsel Hcap.
  assert (∀ w1, getIndexedChildren P fuel parent kernel w1 = Diverged) as Hdiv.
  { intros w1. unfold getIndexedChildren.
    destruct (Z.gtb_spec (Var.indexedChildrenCount parent) P); [|lia].
    by rewrite rangeLoop_diverges by lia. }
  split; [done|]. simpl. rewrite (getVariables_run _ _ _ _ kernel) by done.
  destruct (namedChildren parent kernel [] w) as [children w1| |]; try done.
  unfold indexedChildren.
  destruct (Z.gtb_spec (Var.indexedChildrenCount parent) 0); [|lia].
  by rewrite bind_run, await_run, Hdiv.
Qed.

(** *** X6 *)

(** X6. One level of ranges does not bound the size of a fetch by the page:
    a collection of more than [P * P] elements is split into more than [P]
    ranges, all returned by one fetch. *)
Theorem huge_collection_exceeds_page (fuel : nat) (parent : Var.t)
    (kernel : INotebookKernel) (w : World) :
  let C := Var.indexedChildrenCount parent in
  0 < P → P * P < C → (pageCount P C < fuel)%nat →
  ∃ ranges : list Var.t,
    getIndexedChildren P fuel parent kernel w = Returned ranges w ∧
    P < Z.of_nat (length ranges).
Proof.
  intros C HP HC Hfuel. exists (pages P parent 0 (pageCount P C)).
  assert (P < C) by nia.
  split; [by apply getIndexedChildren_ranges|]. rewrite pages_length.
  destruct (pageCount_bounds P C HP ltac:(lia)) as (_ & _ & Hup). nia.
Qed.

(** *** X7 *)

(** X7. The ranges of one expansion have pairwise different identifiers,
    and none of them has the identifier of the variable they split. *)
Theorem range_ids_distinct (fuel : nat) (parent : Var.t)
    (kernel : INotebookKernel) (w : World) :
  let C := Var.indexedChildrenCount parent in
  0 < P → P < C → (pageCount P C < fuel)%nat →
  ∃ ranges : list Var.t,
    getIndexedChildren P fuel parent kernel w = Returned ranges w ∧
    NoDup (Var.id <$> ranges) ∧
    Var.id parent ∉ Var.id <$> ranges.
Proof.
  intros C HP HC Hfuel. exists (pages P parent 0 (pageCount P C)).
  split; [by apply getIndexedChildren_ranges|]. split.
  - apply NoDup_alt. intros i j x Hi Hj.
    pose proof (lookup_lt_Some _ _ _ Hi) as Hli.
    pose proof (lookup_lt_Some _ _ _ Hj) as Hlj.
    rewrite length_fmap, pages_length in Hli, Hlj.
    rewrite list_lookup_fmap, pages_lookup in Hi, Hj by done.
    simpl in Hi, Hj. rewrite <- Hj in Hi. injection Hi as Hi.
    apply append_cancel_l, (inj pretty) in Hi. nia.
  - intros (r & Hid & Hr)%list_elem_of_fmap.
    apply pages_elem in Hr as (i & _ & ->). simpl in Hid.
    symmetry in Hid. by apply append_nonempty_ne in Hid; [|apply pretty_nonempty].
Qed.

(** *** X8 *)

(** X8. Identifiers are not unique across kinds of nodes.  The first range
    of a wrapped variable with the positive handle [h] carries the
    identifier that wrapping gives to the handle [10 * h], although it is a
    different node. *)
Theorem range_id_collides_with_handle (fuel : nat) (v : VR.t)
    (notebook : NotebookTextModel) (kernel : INotebookKernel) (w : World) :
  let parent := createVariableElement v notebook in
  0 < P → P < VR.indexedChildrenCount v →
  (pageCount P (VR.indexedChildrenCount v) < fuel)%nat →
  0 < VR.id v →
  ∃ r rest,
    getIndexedChildren P fuel parent kernel w = Returned (r :: rest) w ∧
    ∀ v' notebook',
      VR.id v' = 10 * VR.id v →
      Var.id r = Var.id (createVariableElement v' notebook') ∧
      r ≠ createVariableElement v' notebook'.
Proof.
  intros parent HP HC Hfuel Hh.
  rewrite (getIndexedChildren_ranges P) by done.
  destruct (pageCount_bounds P (Var.indexedChildrenCount parent) HP ltac:(simpl; lia))
    as (Hpos & _).
  destruct (pageCount P (Var.indexedChildrenCount parent)) as [|k]; [lia|].
  simpl pages. eexists _, _. split; [reflexivity|].
  intros v' notebook' Hv'. split.
  - simpl. by rewrite Hv', pretty_times_ten.
  - intros Heq. by apply (f_equal Var.indexStart) in Heq.
Qed.

(** *** X9, X10 *)

(** Where a returned node comes from. *)
Lemma getChildren_returned_kind fuel element w children w' node :
  getChildren P service fuel element w = Returned children w' →
  node ∈ children →
  isRange P element node ∨ isWrapped element node.
Proof.
  intros Hrun Hnode. destruct element as [scope|parent]; simpl in Hrun.
  - right. apply getRootVariables_returned in Hrun as (variables & ->).
    apply list_elem_of_fmap in Hnode as (v & -> & _). by exists v.
  - unfold getVariables in Hrun.
    destruct (selected service (Var.notebook parent)) as [kernel|];
      [|injection Hrun as <- _; by apply elem_of_nil in Hnode].
    destruct (hasVariableProvider kernel);
      [|injection Hrun as <- _; by apply elem_of_nil in Hnode].
    rewrite bind_run in Hrun.
    destruct (namedChildren parent kernel [] w) as [namedNodes w1| |] eqn:Hn; try done.
    apply namedChildren_returned in Hn. simpl in Hn.
    assert (node ∈ namedNodes → isWrapped (kind_variable parent) node) as Hnamed.
    { subst namedNodes. destruct (Var.hasNamedChildren parent);
        [|by intros ?%elem_of_nil].
      intros (v & -> & _)%list_elem_of_fmap. by exists v. }
    rewrite bind_run in Hrun. unfold indexedChildren in Hrun.
    destruct (Var.indexedChildrenCount parent >? 0).
    + rewrite bind_run, await_run in Hrun.
      destruct (getIndexedChildren P fuel parent kernel w1)
        as [indexedNodes w2| |] eqn:Hix; try done.
      injection Hrun as <- _. apply elem_of_app in Hnode as [Hnode|Hnode]; [by right; auto|].
      by eapply getIndexedChildren_returned.
    + injection Hrun as <- _. right. auto.
Qed.

(** X9. Among the nodes a fetch returns that are no ranges, the identifier
    and the provider handle determine each other: two such nodes have the
    same identifier exactly when they wrap the same handle, and the
    identifier is the decimal representation of the handle. *)
Theorem wrapped_id_iff_handle (fuel : nat) (element : Element) (w : World)
    (children : list Var.t) (w' : World) (node node' : Var.t) :
  getChildren P service fuel element w = Returned children w' →
  node ∈ children → node' ∈ children →
  Var.indexStart node = None → Var.indexStart node' = None →
  Var.id node = pretty (Var.extHostId node) ∧
  (Var.id node = Var.id node' ↔ Var.extHostId node = Var.extHostId node').
Proof.
  intros Hrun Hnode Hnode' Hnone Hnone'.
  destruct (getChildren_returned_kind _ _ _ _ _ _ Hrun Hnode)
    as [(? & ? & ? & _ & _ & _ & _ & _ & _ & ->)|(v & ->)]; [done|].
  destruct (getChildren_returned_kind _ _ _ _ _ _ Hrun Hnode')
    as [(? & ? & ? & _ & _ & _ & _ & _ & _ & ->)|(v' & ->)]; [done|].
  simpl. split; [done|]. split; [apply (inj pretty)|by intros ->].
Qed.

(** X10. Every node a fetch returns belongs to the notebook of the element
    that was expanded, so that expanding it consults the same kernel. *)
Theorem children_keep_notebook (fuel : nat) (element : Element) (w : World)
    (children : list Var.t) (w' : World) (node : Var.t) :
  getChildren P service fuel element w = Returned children w' →
  node ∈ children →
  Var.notebook node = Element_notebook element ∧
  selected service (Var.notebook node) = selected service (Element_notebook element).
Proof.
  intros Hrun Hnode.
  assert (Var.notebook node = Element_notebook element) as ->; [|done].
  destruct (getChildren_returned_kind _ _ _ _ _ _ Hrun Hnode)
    as [(? & ? & ? & -> & _ & _ & _ & _ & _ & ->)|(v & ->)]; done.
Qed.

(** *** X11 *)

(** X11. A failure of the named sequence aborts the whole fetch: with the
    host idle and the token live, a variable whose named sequence fails at
    its end gets no children at all, the fetch is rejected once the sequence
    has been drained, and the indexed query is never issued, whatever the
    count of indexed children. *)
Theorem named_failure_aborts_fetch (fuel : nat) (parent : Var.t)
    (kernel : INotebookKernel) (w : World) :
  let variables := answer kernel (Var.notebook parent) (namedQuery parent w) in
  let n := S (length (items variables)) in
  selected service (Var.notebook parent) = Some kernel →
  hasVariableProvider kernel = true →
  Var.hasNamedChildren parent = true →
  throws variables = true →
  idle n w → unrevoked w (watches variables) →
  getChildren P service fuel (kind_variable parent) w =
  Rejected ProviderFailure
    (advance n (Asked (namedQuery parent w) :: replicate n Pulled) w).
Proof.
  intros variables n Hsel Hcap Hnamed Hfail Hidle Hlive. simpl.
  rewrite (getVariables_run _ _ _ _ kernel) by done.
  rewrite namedChildren_run, Hnamed, record_as_advance. fold variables.
  apply (idle_split 0 n [Asked (namedQuery parent w)]) in Hidle as [_ Hidle].
  unfold toPromise. simpl.
  rewrite toPromise_from_idle; rewrite ?length_fmap; [|done|done].
  cbv zeta. by rewrite Hfail, advance_advance.
Qed.

(** *** X12 *)

(** X12. The indexed query of a variable with [0 < count <= P], the host
    idle and the token live: the fetch is rejected exactly when the sequence
    fails at its end and has fewer than [P] elements; a sequence of [P] or
    more elements is cut at [P] and its end, failing or not, is never
    reached. *)
Theorem indexed_failure_iff_short (fuel : nat) (parent : Var.t)
    (kernel : INotebookKernel) (w : World) :
  let variables := answer kernel (Var.notebook parent) (indexedQuery parent w) in
  let len := length (items variables) in
  let n := (S len `min` Z.to_nat P)%nat in
  0 < Var.indexedChildrenCount parent ≤ P →
  idle (S len) w → unrevoked w (watches variables) →
  getIndexedChildren P fuel parent kernel w =
  if throws variables && (len <? Z.to_nat P)%nat
  then Rejected ProviderFailure
         (advance (S len) (Asked (indexedQuery parent w) :: replicate (S len) Pulled) w)
  else Returned
         ((λ v, createVariableElement v (Var.notebook parent)) <$>
            take (Z.to_nat P) (items variables))
         (advance n (Asked (indexedQuery parent w) :: replicate n Pulled) w).
Proof.
  intros variables len n HC Hidle Hlive.
  destruct (throws variables) eqn:Hthrows; simpl andb.
  - destruct (Nat.ltb_spec len (Z.to_nat P)) as [Hshort|Hlong].
    + rewrite getIndexedChildren_query by done. cbv zeta. fold variables.
      rewrite record_as_advance.
      apply (idle_split 0 _ [Asked (indexedQuery parent w)]) in Hidle as [_ Hidle].
      rewrite forAwait_idle; [|simpl; lia|done|done]. cbv zeta. simpl length.
      rewrite Z.sub_0_r. fold len.
      destruct (Nat.ltb_spec len (Z.to_nat P)); [|lia].
      by rewrite Hthrows, advance_advance.
    + by apply getIndexedChildren_query_idle; [| | |right].
  - by apply getIndexedChildren_query_idle; [| | |left].
Qed.

(** *** X13 *)

(** A sequence that watches the current token is abandoned at the pull
    during which the host calls [cancel()]. *)
Lemma toPromise_from_cancelled {A} fails :
  ∀ (k : nat) (rest collected : list A) w later,
    (k ≤ length rest)%nat →
    schedule w = replicate k Idle ++ CallCancel :: later →
    (cancellationTokenSource w < length (sources w))%nat →
    revoked w (cancellationTokenSource w) = false →
    ∃ w',
      toPromise_from (Some (cancellationTokenSource w)) fails rest collected w =
      Rejected Cancelled w' ∧
      log w' = log w ++ replicate (S k) Pulled ∧
      revoked w' (cancellationTokenSource w) = true.
Proof.
  induction k as [|k IH]; intros rest collected w later Hk Hsched Hwf Hlive.
  - set (w0 := {| sources := sources w;
                  cancellationTokenSource := cancellationTokenSource w;
                  log := log w; schedule := later |}).
    assert (revoked (cancel w0) (cancellationTokenSource w) = true) as Hrev
      by exact (cancel_revokes_current w0 Hwf).
    assert (pull (Some (cancellationTokenSource w)) w =
            Rejected Cancelled (record Pulled (cancel w0))) as Hpull.
    { rewrite pull_run, (hostTurn_cancel _ later) by done. fold w0.
      unfold honour. by rewrite revoked_record, Hrev. }
    exists (record Pulled (cancel w0)).
    split; [by destruct rest; simpl; rewrite bind_run, Hpull|].
    split; [done|]. by rewrite revoked_record.
  - destruct rest as [|x rest]; [simpl in Hk; lia|]. simpl in Hk.
    assert (idle 1 w) as Hidle.
    { unfold idle. rewrite Hsched. simpl. rewrite take_0. by repeat constructor. }
    assert (unrevoked w (Some (cancellationTokenSource w))) as Hun
      by by intros t [= <-].
    destruct (IH rest (collected ++ [x]) (advance 1 [Pulled] w) later)
      as (w' & Hrun & Hlog & Hrev); [lia|by simpl; rewrite Hsched|done|done|].
    exists w'. simpl toPromise_from. rewrite bind_run, (pull_idle _ _ Hidle Hun).
    split; [done|]. split; [|done].
    rewrite Hlog. simpl. by rewrite <- app_assoc.
Qed.

(** X13. Cancellation in flight.  The host calls [cancel()] while the
    named sequence of a variable is being drained (before its [k+1]-th pull
    is answered, [k] not exceeding the length of the sequence), and the
    provider watches the token it was given: the fetch is rejected as
    cancelled after [k+1] pulls, it returns no child, and the indexed query
    is never issued. *)
Theorem cancel_in_flight_rejects (fuel : nat) (parent : Var.t)
    (kernel : INotebookKernel) (w : World) (k : nat) (later : list HostAction) :
  let variables := answer kernel (Var.notebook parent) (namedQuery parent w) in
  selected service (Var.notebook parent) = Some kernel →
  hasVariableProvider kernel = true →
  Var.hasNamedChildren parent = true →
  watches variables = Some (cancellationTokenSource w) →
  (k ≤ length (items variables))%nat →
  schedule w = replicate k Idle ++ CallCancel :: later →
  (cancellationTokenSource w < length (sources w))%nat →
  revoked w (cancellationTokenSource w) = false →
  ∃ w',
    getChildren P service fuel (kind_variable parent) w = Rejected Cancelled w' ∧
    log w' = log w ++ Asked (namedQuery parent w) :: replicate (S k) Pulled ∧
    revoked w' (cancellationTokenSource w) = true.
Proof.
  intros variables Hsel Hcap Hnamed Hwatch Hk Hsched Hwf Hlive. simpl.
  rewrite (getVariables_run _ _ _ _ kernel) by done.
  rewrite namedChildren_run, Hnamed. fold variables. unfold toPromise. simpl.
  rewrite Hwatch.
  destruct (toPromise_from_cancelled (throws variables) k
              ((λ v, createVariableElement v (Var.notebook parent)) <$> items variables)
              [] (record (Asked (namedQuery parent w)) w) later)
    as (w' & Hrun & Hlog & Hrev); [by rewrite length_fmap|done..|].
  simpl in Hrun. rewrite Hrun. exists w'. split; [done|]. split; [|done].
  rewrite Hlog. simpl. by rewrite <- app_assoc.
Qed.

(** *** X14 *)

Lemma concat_chunks {A B} (f : A → B) (p : nat) (L : list A) :
  ∀ k start,
    concat ((λ chunk : list A, f <$> chunk) <$> chunks p L start k) =
    f <$> take (k * p) (drop start L).
Proof.
  induction k as [|k IH]; intros start; simpl; [done|].
  rewrite IH, <- fmap_app. f_equal.
  rewrite <- (drop_drop L p start), take_take_drop. done.
Qed.

(** Expanding the pages from [start] yields the chunks from [start]. *)
Lemma pages_expand parent kernel (L : list VR.t) :
  0 < P → wellBehaved kernel →
  (∀ start tok,
     0 ≤ start →
     items (provideVariables kernel (uri (Var.notebook parent))
              (Some (Var.extHostId parent)) indexed start tok) =
     drop (Z.to_nat start) L) →
  ∀ (k start : nat),
    ((0 < k)%nat →
     Z.of_nat start + (Z.of_nat k - 1) * P < Var.indexedChildrenCount parent) →
    Forall2
      (λ r part, ∀ fuel w1, quiet w1 →
                 ∃ w2, getIndexedChildren P fuel r kernel w1 = Returned part w2)
      (pages P parent (Z.of_nat start) k)
      ((λ chunk : list VR.t,
          (λ v, createVariableElement v (Var.notebook parent)) <$> chunk)
         <$> chunks (Z.to_nat P) L start k).
Proof.
  intros HP Hwb Hitems. induction k as [|k IH]; intros start Hlow; simpl; [constructor|].
  specialize (Hlow ltac:(lia)). rewrite Nat2Z.inj_succ in Hlow.
  assert (0 ≤ Z.of_nat k * P) by (apply Z.mul_nonneg_nonneg; lia).
  constructor.
  - intros fuel w1 Hq. eexists.
    rewrite getIndexedChildren_query_idle;
      [|simpl; lia|apply idle_nil, Hq|by apply quiet_unrevoked|left; apply Hwb].
    unfold answer, indexedQuery. simpl.
    rewrite Hitems, Nat2Z.id by lia. reflexivity.
  - replace (Z.of_nat start + P) with (Z.of_nat (start + Z.to_nat P)) by lia.
    apply IH. intros Hk. lia.
Qed.

(** X14. Paging loses nothing.  For a collection of [C > P] elements whose
    provider answers an indexed query at offset [s] with the elements from
    [s] on: expanding the ranges of one split one after the other, each in a
    world the host leaves alone, returns lists which, put end to end, are
    the whole collection, wrapped element by element and in order. *)
Theorem ranges_cover_collection (fuel : nat) (parent : Var.t)
    (kernel : INotebookKernel) (w : World) (L : list VR.t) :
  let C := Var.indexedChildrenCount parent in
  0 < P → P < C → (pageCount P C < fuel)%nat →
  length L = Z.to_nat C →
  wellBehaved kernel →
  (∀ start tok,
     0 ≤ start →
     items (provideVariables kernel (uri (Var.notebook parent))
              (Some (Var.extHostId parent)) indexed start tok) =
     drop (Z.to_nat start) L) →
  ∃ (ranges : list Var.t) (parts : list (list Var.t)),
    getIndexedChildren P fuel parent kernel w = Returned ranges w ∧
    Forall2
      (λ r part, ∀ fuel' w1, quiet w1 →
                 ∃ w2, getIndexedChildren P fuel' r kernel w1 = Returned part w2)
      ranges parts ∧
    concat parts = (λ v, createVariableElement v (Var.notebook parent)) <$> L.
Proof.
  intros C HP HC Hfuel Hlen Hwb Hitems.
  destruct (pageCount_bounds P C HP ltac:(lia)) as (Hpos & Hlow & Hup).
  eexists _, _. split; [by apply getIndexedChildren_ranges|]. split.
  - apply (pages_expand parent kernel L HP Hwb Hitems (pageCount P C) 0).
    intros _. fold C. lia.
  - rewrite concat_chunks, drop_0, take_ge; [done|]. rewrite Hlen. nia.
Qed.

End Further.

(** ** Instances of the further properties *)

Lemma example_kernel_faithful (start : Z) (tok : nat) :
  0 ≤ start →
  items (provideVariables example_kernel (uri (Var.notebook example_arr_element))
           (Some (Var.extHostId example_arr_element)) indexed start tok) =
  drop (Z.to_nat start) (example_item <$> seqZ 0 250).
Proof.
  intros Hstart.
  change (example_item <$> seqZ start (250 - start) =
          drop (Z.to_nat start) (example_item <$> seqZ 0 250)).
  rewrite <- fmap_drop. f_equal.
  destruct (Z_le_gt_dec start 250) as [Hle|Hgt].
  - replace 250 with (start + (250 - start)) at 2 by lia.
    rewrite seqZ_app by lia.
    rewrite drop_app_length' by (rewrite length_seqZ; lia). by rewrite Z.add_0_l.
  - rewrite seqZ_nil by lia. rewrite drop_ge; [done|]. rewrite length_seqZ. lia.
Qed.

Lemma getChildren_leaves_handles_example :
  ∃ w',
    outcome_world
      (getChildren 2 example_service 0 (kind_variable example_obj_element)
         (new_NotebookVariableDataSource [])) = Some w' ∧
    sources w' = [liveSource] ∧ cancellationTokenSource w' = 0%nat.
Proof.
  eexists. split; [vm_compute; reflexivity|].
  match goal with
  | |- sources ?w' = _ ∧ _ =>
      destruct (getChildren_leaves_handles 2 example_service 0
                  (kind_variable example_obj_element)
                  (new_NotebookVariableDataSource []) w' eq_refl eq_refl)
        as (Hs & Hc & _)
  end.
  split; [exact Hs|exact Hc].
Defined.

Lemma getChildren_of_leaf_example :
  getChildren 100 example_service 0 (kind_variable example_x_element)
    (new_NotebookVariableDataSource []) =
  Returned [] (new_NotebookVariableDataSource []).
Proof.
  apply (getChildren_of_leaf 100 example_service 0 example_x_element). reflexivity.
Defined.

Lemma getChildren_of_scope_example :
  ∃ w',
    getChildren 100 example_service 0 (kind_root example_scope)
      (new_NotebookVariableDataSource []) =
    Returned [example_x_element; example_arr_element; example_obj_element] w'.
Proof.
  destruct (getChildren_of_scope 100 example_service 0 example_scope example_kernel
              (new_NotebookVariableDataSource []))
    as (_ & _ & Hrun); [reflexivity | reflexivity |].
  eexists. rewrite Hrun; [reflexivity | by apply idle_nil | by intros t [= <-]].
Defined.

Lemma nonpositive_page_diverges_example :
  getChildren 0 example_service 1000 (kind_variable example_arr_element)
    (new_NotebookVariableDataSource []) = Diverged.
Proof.
  destruct (nonpositive_page_diverges 0 example_service 1000 example_arr_element
              example_kernel (new_NotebookVariableDataSource []))
    as [_ Hrun]; [lia | simpl; lia | reflexivity | reflexivity |].
  exact Hrun.
Defined.

Lemma huge_collection_exceeds_page_example :
  ∃ ranges : list Var.t,
    getIndexedChildren 2 126 example_arr_element example_kernel
      (new_NotebookVariableDataSource []) =
    Returned ranges (new_NotebookVariableDataSource []) ∧
    2 < Z.of_nat (length ranges).
Proof.
  apply (huge_collection_exceeds_page 2 126 example_arr_element example_kernel
           (new_NotebookVariableDataSource []));
    [lia | simpl; lia | vm_compute; lia].
Defined.

Lemma range_ids_distinct_example :
  ∃ ranges : list Var.t,
    getIndexedChildren 100 4 example_arr_element example_kernel
      (new_NotebookVariableDataSource []) =
    Returned ranges (new_NotebookVariableDataSource []) ∧
    NoDup (Var.id <$> ranges) ∧
    Var.id example_arr_element ∉ Var.id <$> ranges.
Proof.
  apply (range_ids_distinct 100 4 example_arr_element example_kernel
           (new_NotebookVariableDataSource []));
    [lia | simpl; lia | vm_compute; lia].
Defined.

Lemma range_id_collides_with_handle_example :
  ∃ r rest,
    getIndexedChildren 100 4 example_arr_element example_kernel
      (new_NotebookVariableDataSource []) =
    Returned (r :: rest) (new_NotebookVariableDataSource []) ∧
    Var.id r = Var.id (createVariableElement (example_field 70) example_notebook).
Proof.
  destruct (range_id_collides_with_handle 100 4 example_arr example_notebook
              example_kernel (new_NotebookVariableDataSource []))
    as (r & rest & Hrun & Hid); [lia | simpl; lia | vm_compute; lia | simpl; lia |].
  exists r, rest. split; [exact Hrun|].
  exact (proj1 (Hid (example_field 70) example_notebook eq_refl)).
Defined.

Lemma wrapped_id_iff_handle_example :
  Var.id example_x_element = Var.id example_arr_element ↔
  Var.extHostId example_x_element = Var.extHostId example_arr_element.
Proof.
  apply (wrapped_id_iff_handle 100 example_service 0 (kind_root example_scope)
           (new_NotebookVariableDataSource [])
           [example_x_element; example_arr_element; example_obj_element]
           {| sources := [liveSource]; cancellationTokenSource := 0%nat;
              log := [Asked {| q_parentId := None; q_kind := named; q_start := 0;
                               q_token := 0%nat |};
                      Pulled; Pulled; Pulled; Pulled];
              schedule := [] |}).
  - reflexivity.
  - apply list_elem_of_lookup. by exists 0%nat.
  - apply list_elem_of_lookup. by exists 1%nat.
  - reflexivity.
  - reflexivity.
Defined.

Lemma children_keep_notebook_example :
  Var.notebook example_arr_element = example_notebook.
Proof.
  apply (children_keep_notebook 100 example_service 0 (kind_root example_scope)
           (new_NotebookVariableDataSource [])
           [example_x_element; example_arr_element; example_obj_element]
           {| sources := [liveSource]; cancellationTokenSource := 0%nat;
              log := [Asked {| q_parentId := None; q_kind := named; q_start := 0;
                               q_token := 0%nat |};
                      Pulled; Pulled; Pulled; Pulled];
              schedule := [] |}).
  - reflexivity.
  - apply list_elem_of_lookup. by exists 1%nat.
Defined.

Lemma named_failure_aborts_fetch_example :
  ∃ w',
    getChildren 2 failing_service 0 (kind_variable example_obj_element)
      (new_NotebookVariableDataSource []) = Rejected ProviderFailure w'.
Proof.
  eexists.
  apply (named_failure_aborts_fetch 2 failing_service 0 example_obj_element
           failing_kernel (new_NotebookVariableDataSource []));
    [reflexivity | reflexivity | reflexivity | reflexivity
    | by apply idle_nil | by intros t [= <-]].
Defined.

Lemma indexed_failure_iff_short_example :
  ∃ w',
    getIndexedChildren 2 0 example_obj_element failing_kernel
      (new_NotebookVariableDataSource []) =
    Returned
      [createVariableElement (example_item 0) example_notebook;
       createVariableElement (example_item 1) example_notebook] w'.
Proof.
  eexists.
  apply (indexed_failure_iff_short 2 0 example_obj_element failing_kernel
           (new_NotebookVariableDataSource []));
    [simpl; lia | by apply idle_nil | by intros t [= <-]].
Defined.

Lemma cancel_in_flight_rejects_example :
  ∃ w',
    getChildren 2 example_service 0 (kind_variable example_obj_element)
      (new_NotebookVariableDataSource [Idle; CallCancel]) = Rejected Cancelled w' ∧
    revoked w' 0 = true.
Proof.
  destruct (cancel_in_flight_rejects 2 example_service 0 example_obj_element
              example_kernel (new_NotebookVariableDataSource [Idle; CallCancel])
              1 [])
    as (w' & Hrun & _ & Hrev);
    [reflexivity | reflexivity | reflexivity | reflexivity | simpl; lia
    | reflexivity | simpl; lia | reflexivity |].
  by exists w'.
Defined.

Lemma ranges_cover_collection_example :
  ∃ (ranges : list Var.t) (parts : list (list Var.t)),
    getIndexedChildren 100 4 example_arr_element example_kernel
      (new_NotebookVariableDataSource []) =
    Returned ranges (new_NotebookVariableDataSource []) ∧
    length (concat parts) = 250%nat.
Proof.
  destruct (ranges_cover_collection 100 4 example_arr_element example_kernel
              (new_NotebookVariableDataSource []) (example_item <$> seqZ 0 250))
    as (ranges & parts & Hrun & _ & Hconcat);
    [lia | simpl; lia | vm_compute; lia | reflexivity
    | exact example_kernel_wellBehaved | exact example_kernel_faithful |].
  exists ranges, parts. split; [exact Hrun|].
  rewrite Hconcat. reflexivity.
Defined.
